(** * whatsapp-root: job queue, enqueue validation and webhook signing

    A shallow embedding of the queue and webhook code of the repository:

    - [Js]        the few JavaScript notions the code relies on
                  (values, truthiness, completions, [String.replace]);
    - [Webhook]   [utils/webhook.js] ([sendWebhook], [verifyWebhookSignature])
                  and [triggerWebhooks] of [playwright.js];
    - [ApiQueue]  the in-memory queue of [api/queue.js], as a machine whose
                  steps are the code segments between two [await]s;
    - [BullQueue] the BullMQ-backed queue module ([addMessageToQueue],
                  [processJob]) and the [POST /send] handler of
                  [routes/whatsapp.js];
    - [ApiDb]     the in-memory store of [api/db.js] ([saveQueueJob],
                  [updateQueueJob], [getQueueJobs]);
    - [ApiQueueReads] [getJob] and [getQueueStatus] of [api/queue.js];
    - [Validation] [utils/validation.js] ([sanitizeHtml],
                  [isValidPhoneNumber], [isValidMessageContent],
                  [validateRateLimit]);
    - [Playwright] [parseMessageData], the message handlers and the
                  reconnection back-off of [playwright.js].
*)

From Stdlib Require Import ZArith NArith Ascii String DecimalString.
From Stdlib.Strings Require Import Byte.
From stdpp Require Import base option list strings gmap.

Local Open Scope string_scope.

(* ===================================================================== *)
(** ** JavaScript preliminaries *)
(* ===================================================================== *)

Module Js.

(** Values found in a JSON request body or passed to the string-based
    utilities.  Numbers are restricted to integers; [JObj] stands for any
    object or array of JSON data (always truthy, never a string): binary
    values such as a Buffer are not among them. *)
Inductive JsVal :=
| JUndefined
| JNull
| JBool (b : bool)
| JNum (z : Z)
| JStr (s : string)
| JObj.

(** ToBoolean. *)
Definition truthy (v : JsVal) : bool :=
  match v with
  | JUndefined | JNull => false
  | JBool b => b
  | JNum z => negb (z =? 0)%Z
  | JStr s => negb (String.eqb s "")
  | JObj => true
  end.

(** Thrown values: the built-in error classes the code meets, and plain
    [new Error(msg)]. *)
Inductive Error :=
| TypeError (msg : string)
| RangeError (msg : string)
| ReferenceError (msg : string)
| PlainError (msg : string).

(** The completion of a call: a normal return or a thrown exception.  For an
    [async] function: the promise it returns is fulfilled or rejected. *)
Inductive Completion (A : Type) :=
| Return (a : A)
| Throw (e : Error).
Arguments Return {A} a.
Arguments Throw {A} e.

Definition bind {A B} (c : Completion A) (k : A -> Completion B) : Completion B :=
  match c with
  | Return a => k a
  | Throw e => Throw e
  end.

(** [try { body } catch (error) { handler }] *)
Definition try_catch {A} (body : Completion A) (handler : Error -> Completion A)
  : Completion A :=
  match body with
  | Return a => Return a
  | Throw e => handler e
  end.

(** How an awaited promise settles. *)
Inductive Outcome := resolved | rejected (msg : string).

(** [s] without its first [n] characters. *)
Fixpoint drop_chars (n : nat) (s : string) : string :=
  match n, s with
  | O, _ => s
  | S n', String _ s' => drop_chars n' s'
  | S _, EmptyString => EmptyString
  end.

(** [s.replace(pat, rep)] with a string pattern: only the first occurrence
    is replaced. *)
Fixpoint replace (pat rep s : string) : string :=
  if String.prefix pat s then rep +:+ drop_chars (String.length pat) s
  else match s with
       | EmptyString => EmptyString
       | String c s' => String c (replace pat rep s')
       end.

(** [Array.prototype.includes] on an array of strings. *)
Definition includes (l : list string) (x : string) : bool :=
  existsb (String.eqb x) l.

(** [n.toString()] for an integer. *)
Definition toString (z : Z) : string :=
  NilZero.string_of_int (Z.to_int z).

End Js.

Export Js.

Declare Scope completion_scope.
Delimit Scope completion_scope with completion.
Notation "'do' x <- c ; k" := (Js.bind c (fun x => k))
  (at level 10, x name, c at level 100, k at level 200) : completion_scope.

Local Open Scope completion_scope.

(* ===================================================================== *)
(** ** Webhook utilities ([utils/webhook.js]) and fan-out ([playwright.js]) *)
(* ===================================================================== *)

Module Webhook.

(** *** Buffers and their hex encoding *)

Definition Buffer := list byte.

#[export] Instance byte_eq_decision : EqDecision byte := Byte.byte_eq_dec.

(** The digit for a value below 16, lower case as [digest('hex')] prints
    it. *)
Definition hexchar (n : N) : ascii :=
  default "f"%char (String.get (N.to_nat n) "0123456789abcdef").

(** The value of a hex digit of either case, by its character code. *)
Definition hexval (c : ascii) : option N :=
  let code := N_of_ascii c in
  if (48 <=? code)%N && (code <=? 57)%N then Some (code - 48)%N
  else if (97 <=? code)%N && (code <=? 102)%N then Some (code - 87)%N
  else if (65 <=? code)%N && (code <=? 70)%N then Some (code - 55)%N
  else None.

Definition hex_of_byte (b : byte) : string :=
  let n := Byte.to_N b in
  String (hexchar (n / 16)) (String (hexchar (n mod 16)) EmptyString).

(** [hmac.digest('hex')]: two lower-case digits per byte. *)
Fixpoint digest_hex (bs : Buffer) : string :=
  match bs with
  | [] => EmptyString
  | b :: bs' => hex_of_byte b +:+ digest_hex bs'
  end.

(** [Buffer.from(s, 'hex')]: decodes pairs of hex digits and stops at the
    first pair that is not one (a trailing single character is dropped). *)
Fixpoint Buffer_from_hex (s : string) : Buffer :=
  match s with
  | String c1 (String c2 s') =>
      match hexval c1, hexval c2 with
      | Some h, Some l =>
          match Byte.of_N (16 * h + l) with
          | Some b => b :: Buffer_from_hex s'
          | None => []
          end
      | _, _ => []
      end
  | _ => []
  end.

(** [crypto.timingSafeEqual(a, b)]: throws a RangeError when the two buffers
    have different byte lengths, otherwise compares them. *)
Definition timingSafeEqual (a b : Buffer) : Completion bool :=
  if Nat.eqb (length a) (length b) then Return (bool_decide (a = b))
  else Throw (RangeError "Input buffers must have the same byte length").

(** *** Requests, responses and webhook rows *)

Record Request := mkRequest {
  req_url : string;
  req_signature : option string;   (* the X-Webhook-Signature header *)
  req_body : option string         (* [None]: the body is [undefined] *)
}.

(** What [await fetch(...)] gives: a response with its status, or a
    rejection (network error, timeout). *)
Inductive FetchResult :=
| Response (status : Z)
| NetworkFailure (e : Error).

Definition response_ok (status : Z) : bool :=
  (200 <=? status)%Z && (status <=? 299)%Z.

Record Envelope (Data : Type) := mkEnvelope {
  event : string;
  timestamp : string;
  data : Data
}.
Arguments mkEnvelope {Data}.

Record WebhookRow := mkWebhook {
  url : string;
  secret : option string;          (* null or a string *)
  events : list string
}.

Section WithCrypto.

(** [crypto.createHmac('sha256', key).update(data).digest()] on strings. *)
Variable hmac_sha256 : string -> string -> Buffer.

(** [crypto.createHmac('sha256', secret).update(payload).digest('hex')]:
    among the values of [JsVal], [createHmac] and [update] accept the
    strings only (the binary keys and data that Node accepts as well are not
    values of [JsVal]). *)
Definition createHmac_update_digest (secret payload : JsVal) : Completion string :=
  match secret with
  | JStr key =>
      match payload with
      | JStr data => Return (digest_hex (hmac_sha256 key data))
      | _ => Throw (TypeError "The data argument must be of type string")
      end
  | _ => Throw (TypeError "The key argument must be of type string")
  end.

(** [signature.replace('sha256=', '')]; a TypeError when [signature] is not
    a string ([undefined], [null], or a value without [replace]). *)
Definition signature_replace (signature : JsVal) : Completion string :=
  match signature with
  | JStr s => Return (replace "sha256=" "" s)
  | _ => Throw (TypeError "signature.replace is not a function")
  end.

(** The [try] block of [verifyWebhookSignature]. *)
Definition verifyWebhookSignature_try (payload signature secret : JsVal)
  : Completion bool :=
  do expectedSignature <- createHmac_update_digest secret payload;
  do receivedSignature <- signature_replace signature;
  timingSafeEqual (Buffer_from_hex expectedSignature)
                  (Buffer_from_hex receivedSignature).

(** [verifyWebhookSignature(payload, signature, secret)]: the [catch] block
    logs the error and returns [false]. *)
Definition verifyWebhookSignature (payload signature secret : JsVal)
  : Completion bool :=
  try_catch (verifyWebhookSignature_try payload signature secret)
            (fun _error => Return false).

(** The header value [sendWebhook] attaches:
    [`sha256=${createHmac('sha256', secret).update(payload).digest('hex')}`]. *)
Definition signature_header (secret payload : string) : string :=
  "sha256=" +:+ digest_hex (hmac_sha256 secret payload).

(** *** [sendWebhook] and [triggerWebhooks] *)

Variable Data : Type.
Variable World : Type.
(** [JSON.stringify(data)]: a string, [undefined] (for a value that has no
    JSON text), or an exception (a cyclic structure, a BigInt, a throwing
    [toJSON]). *)
Variable stringify : Envelope Data -> Completion (option string).
(** The network: the outcome of a POST, and the world after it. *)
Variable fetch : Request -> World -> FetchResult * World.
(** [new Date().toISOString()]. *)
Variable toISOString_now : World -> string.

(** The world together with the requests handed to [fetch] so far (oldest
    first). *)
Record Net := mkNet {
  world : World;
  posted : list Request
}.

(** [if (secret) { headers['X-Webhook-Signature'] = ... }]: [null] and the
    empty string are falsy; [update(payload)] throws a TypeError when the
    payload is [undefined].  The secret is [null] or a string, as the
    [secret] column of a webhook row gives it. *)
Definition signature_for (s : option string) (payload : option string)
  : Completion (option string) :=
  match s with
  | Some k =>
      if String.eqb k "" then Return None
      else match payload with
           | Some p => Return (Some (signature_header k p))
           | None => Throw (TypeError "The data argument must be of type string")
           end
  | None => Return None
  end.

(** The [try] block of [sendWebhook] of [utils/webhook.js]: it ends with
    [return true], or throws: [JSON.stringify] or the signing throws before
    anything is sent, the response is not ok, or [fetch] is rejected. *)
Definition sendWebhook_try (u : string) (d : Envelope Data) (s : option string)
    (n : Net) : Completion bool * Net :=
  match stringify d with
  | Throw e => (Throw e, n)
  | Return payload =>
      match signature_for s payload with
      | Throw e => (Throw e, n)
      | Return signature =>
          let request := mkRequest u signature payload in
          let '(result, w) := fetch request (world n) in
          let n' := mkNet w (posted n ++ [request]) in
          match result with
          | Response status =>
              if response_ok status then (Return true, n')
              else (Throw (PlainError "Webhook failed with status"), n')
          | NetworkFailure e => (Throw e, n')
          end
      end
  end.

(** [sendWebhook(url, data, secret)] of [utils/webhook.js]: the [catch]
    block logs and returns [false]. *)
Definition sendWebhook (u : string) (d : Envelope Data) (s : option string)
    (n : Net) : Completion bool * Net :=
  let '(c, n') := sendWebhook_try u d s n in
  (try_catch c (fun _error => Return false), n').

Definition Sender := string -> Envelope Data -> option string -> Net -> Completion bool * Net.

(** What the scope of the module [playwright.js] binds the two identifiers
    that [triggerWebhooks] calls to: a function, or nothing when the module
    neither imports nor declares the identifier.  Evaluating an unbound
    identifier throws a ReferenceError. *)
Record Scope := mkScope {
  bound_getWebhooks : option (World -> Completion (list WebhookRow) * World);
  bound_sendWebhook : option Sender
}.

(** [await getWebhooks()] *)
Definition call_getWebhooks (scope : Scope) (w : World)
  : Completion (list WebhookRow) * World :=
  match bound_getWebhooks scope with
  | Some getWebhooks => getWebhooks w
  | None => (Throw (ReferenceError "getWebhooks is not defined"), w)
  end.

(** [await sendWebhook(url, data, secret)]: the identifier is evaluated
    before the arguments are. *)
Definition call_sendWebhook (scope : Scope) : Sender :=
  fun u d s n =>
    match bound_sendWebhook scope with
    | Some send => send u d s n
    | None => (Throw (ReferenceError "sendWebhook is not defined"), n)
    end.

(** The [for (const webhook of webhooks)] loop of [triggerWebhooks]; the
    inner [try/catch] logs what the call of [sendWebhook] throws and the
    loop goes on. *)
Fixpoint notify_each (scope : Scope) (message : Data) (webhooks : list WebhookRow)
    (n : Net) : Completion unit * Net :=
  match webhooks with
  | [] => (Return tt, n)
  | webhook :: rest =>
      if includes (events webhook) "message.new" then
        let envelope := mkEnvelope "message.new" (toISOString_now (world n)) message in
        let '(sent, n') :=
          call_sendWebhook scope (url webhook) envelope (secret webhook) n in
        match try_catch (do _ <- sent; Return tt) (fun _error => Return tt) with
        | Return _ => notify_each scope message rest n'
        | Throw e => (Throw e, n')
        end
      else notify_each scope message rest n
  end.

(** The [try] block of [triggerWebhooks(message)], with
    [process.env.WEBHOOK_ENABLED] as [enabled]. *)
Definition triggerWebhooks_try (scope : Scope) (enabled : option string)
    (message : Data) (n : Net) : Completion unit * Net :=
  if negb (bool_decide (enabled = Some "true")) then (Return tt, n)
  else
    let '(ws, w) := call_getWebhooks scope (world n) in
    let n1 := mkNet w (posted n) in
    match ws with
    | Throw e => (Throw e, n1)
    | Return webhooks => notify_each scope message webhooks n1
    end.

(** [triggerWebhooks(message)] in a given scope: the outer [catch] logs and
    returns. *)
Definition triggerWebhooks_in (scope : Scope) (enabled : option string)
    (message : Data) (n : Net) : Completion unit * Net :=
  let '(c, n') := triggerWebhooks_try scope enabled message n in
  (try_catch c (fun _error => Return tt), n').

(** The scope of [playwright.js]: its imports are [chromium], [logger],
    [uuidv4], [saveMessage], [saveSession] and [updateSessionStatus], and it
    declares neither [getWebhooks] nor [sendWebhook]. *)
Definition playwright_scope : Scope := mkScope None None.

(** [triggerWebhooks(message)] of [playwright.js]. *)
Definition triggerWebhooks := triggerWebhooks_in playwright_scope.

End WithCrypto.

End Webhook.

(* ===================================================================== *)
(** ** The in-memory queue ([api/queue.js]) *)
(* ===================================================================== *)

Module ApiQueue.

(** The values of [job.status]. *)
Inductive Status := Pending | Processing | Completed | Failed | Cancelled.

#[export] Instance Status_eq_dec : EqDecision Status.
Proof. solve_decision. Defined.

(** The object handed to [addJob]; the [POST /add] route builds it from exactly
    these five fields of the request body. *)
Record JobData := mkJobData {
  type : JsVal;
  recipient : JsVal;
  content : JsVal;
  mediaUrl : JsVal;
  mediaType : JsVal
}.

(** A job object.  Time stamps are kept as clock readings (milliseconds)
    instead of their ISO strings. *)
Record Job := mkJob {
  id : string;
  data : JobData;                  (* ...jobData *)
  status : Status;
  createdAt : Z;
  retryCount : Z;
  startedAt : option Z;
  completedAt : option Z;
  failedAt : option Z;
  cancelledAt : option Z;
  updatedAt : option Z;
  error : option string
}.

(** Field assignments [job.f = v]. *)
Definition set_status (s : Status) (j : Job) : Job :=
  mkJob (id j) (data j) s (createdAt j) (retryCount j) (startedAt j)
        (completedAt j) (failedAt j) (cancelledAt j) (updatedAt j) (error j).
Definition set_retryCount (n : Z) (j : Job) : Job :=
  mkJob (id j) (data j) (status j) (createdAt j) n (startedAt j)
        (completedAt j) (failedAt j) (cancelledAt j) (updatedAt j) (error j).
Definition set_startedAt (t : Z) (j : Job) : Job :=
  mkJob (id j) (data j) (status j) (createdAt j) (retryCount j) (Some t)
        (completedAt j) (failedAt j) (cancelledAt j) (updatedAt j) (error j).
Definition set_completedAt (t : Z) (j : Job) : Job :=
  mkJob (id j) (data j) (status j) (createdAt j) (retryCount j) (startedAt j)
        (Some t) (failedAt j) (cancelledAt j) (updatedAt j) (error j).
Definition set_failedAt (t : Z) (j : Job) : Job :=
  mkJob (id j) (data j) (status j) (createdAt j) (retryCount j) (startedAt j)
        (completedAt j) (Some t) (cancelledAt j) (updatedAt j) (error j).
Definition set_cancelledAt (t : Z) (j : Job) : Job :=
  mkJob (id j) (data j) (status j) (createdAt j) (retryCount j) (startedAt j)
        (completedAt j) (failedAt j) (Some t) (updatedAt j) (error j).
Definition set_updatedAt (t : Z) (j : Job) : Job :=
  mkJob (id j) (data j) (status j) (createdAt j) (retryCount j) (startedAt j)
        (completedAt j) (failedAt j) (cancelledAt j) (Some t) (error j).
Definition set_error (m : string) (j : Job) : Job :=
  mkJob (id j) (data j) (status j) (createdAt j) (retryCount j) (startedAt j)
        (completedAt j) (failedAt j) (cancelledAt j) (updatedAt j) (Some m).

(** Calls made to the persistence layer ([api/db.js]). *)
Inductive DbCall :=
| saveQueueJob (jobId : string) (d : JobData) (st : Status)
| updateQueueJob (jobId : string) (st : Status) (retry_count : option Z).

(** Job objects live in a heap and the four arrays of [queue] hold
    references to them: the same object is reached from an array and from
    the local variable [job] of a suspended call. *)
Abbreviation Ref := nat (only parsing).

Record Queue := mkQueue {
  heap : list Job;
  pending : list Ref;
  processing : list Ref;
  completed : list Ref;
  failed : list Ref;
  db : list DbCall                 (* calls issued so far, oldest first *)
}.

Definition empty_queue : Queue := mkQueue [] [] [] [] [] [].

Definition set_heap (h : list Job) (q : Queue) : Queue :=
  mkQueue h (pending q) (processing q) (completed q) (failed q) (db q).
Definition set_pending (l : list Ref) (q : Queue) : Queue :=
  mkQueue (heap q) l (processing q) (completed q) (failed q) (db q).
Definition set_processing (l : list Ref) (q : Queue) : Queue :=
  mkQueue (heap q) (pending q) l (completed q) (failed q) (db q).
Definition set_completed (l : list Ref) (q : Queue) : Queue :=
  mkQueue (heap q) (pending q) (processing q) l (failed q) (db q).
Definition set_failed (l : list Ref) (q : Queue) : Queue :=
  mkQueue (heap q) (pending q) (processing q) (completed q) l (db q).
Definition db_call (c : DbCall) (q : Queue) : Queue :=
  mkQueue (heap q) (pending q) (processing q) (completed q) (failed q) (db q ++ [c]).

(** [job.f = v] through a reference. *)
Definition mutate (f : Job -> Job) (r : Ref) (q : Queue) : Queue :=
  set_heap (alter f r (heap q)) q.

(** [j => j.id === jobId] on a reference. *)
Definition has_id (h : list Job) (jobId : string) (r : Ref) : bool :=
  match h !! r with
  | Some j => String.eqb (id j) jobId
  | None => false
  end.

(** [Array.prototype.findIndex], with [None] for [-1]. *)
Fixpoint findIndex {A} (p : A -> bool) (l : list A) : option nat :=
  match l with
  | [] => None
  | x :: l' => if p x then Some 0 else S <$> findIndex p l'
  end.

(** Suspended calls: each constructor is an [await] of the source, with the
    local variables that are live across it. *)
Inductive Frame :=
| addJob_await_save (job : Ref)
| processJob_await_processing (jobId : string) (job : Ref)
| processJob_await_timeout (jobId : string) (job : Ref)
| processJob_await_completed (jobId : string) (job : Ref)
| processJob_await_failed (jobId : string)
| cancelJob_await_update (jobId : string)
| retryFailedJobs_await_update (job : Ref) (rest : list Ref) (total : nat).

(** What a finished exported call hands to its caller. *)
Inductive Event :=
| addJob_returns (job : Ref)
| addJob_throws (msg : string)
| cancelJob_returns (b : bool)
| cancelJob_throws (msg : string)
| clearCompletedJobs_returns
| retryFailedJobs_returns (count : nat)
| retryFailedJobs_throws (msg : string).

(** The result of running a call up to its next [await] or to its end. *)
Record Segment := mkSegment {
  seg_queue : Queue;
  seg_frames : list Frame;         (* calls now suspended *)
  seg_events : list Event
}.

(** [processJob(jobId)] up to its first [await]. *)
Definition processJob_begin (now : Z) (jobId : string) (q : Queue)
  : Queue * list Frame :=
  match findIndex (has_id (heap q) jobId) (pending q) with
  | None => (q, [])                (* logger.warn; return *)
  | Some jobIndex =>
      match pending q !! jobIndex with
      | None => (q, [])
      | Some job =>
          let q := set_pending (delete jobIndex (pending q)) q in
          let q := mutate (set_status Processing) job q in
          let q := mutate (set_startedAt now) job q in
          let q := set_processing (processing q ++ [job]) q in
          let q := db_call (updateQueueJob jobId Processing None) q in
          (q, [processJob_await_processing jobId job])
      end
  end.

(** The [catch] block of [processJob] up to its [await]. *)
Definition processJob_catch (now : Z) (jobId : string) (msg : string) (q : Queue)
  : Queue * list Frame :=
  match findIndex (has_id (heap q) jobId) (processing q) with
  | None => (q, [])
  | Some jobIndex =>
      match processing q !! jobIndex with
      | None => (q, [])
      | Some job =>
          let q := set_processing (delete jobIndex (processing q)) q in
          let q := mutate (set_status Failed) job q in
          let q := mutate (set_error msg) job q in
          let q := mutate (set_failedAt now) job q in
          let q := set_failed (failed q ++ [job]) q in
          let q := db_call (updateQueueJob jobId Failed None) q in
          (q, [processJob_await_failed jobId])
      end
  end.

(** [processJob] after the simulated work ([setTimeout]) up to the next
    [await]. *)
Definition processJob_complete (now : Z) (jobId : string) (job : Ref) (q : Queue)
  : Queue * list Frame :=
  let q := mutate (set_status Completed) job q in
  let q := mutate (set_completedAt now) job q in
  let q := set_processing
             (List.filter (fun j => negb (has_id (heap q) jobId j)) (processing q)) q in
  let q := set_completed (completed q ++ [job]) q in
  let q := db_call (updateQueueJob jobId Completed None) q in
  (q, [processJob_await_completed jobId job]).

(** [addJob(jobData)] up to [await saveQueueJob(...)]. *)
Definition addJob_begin (now : Z) (jobData : JobData) (q : Queue) : Segment :=
  let job := mkJob (toString now) jobData Pending now 0 None None None None None None in
  let r := length (heap q) in
  let q := set_heap (heap q ++ [job]) q in
  let q := set_pending (pending q ++ [r]) q in
  let q := db_call (saveQueueJob (id job) jobData Pending) q in
  mkSegment q [addJob_await_save r] [].

(** [cancelJob(jobId)] up to its [await], or to [return false]. *)
Definition cancelJob_begin (now : Z) (jobId : string) (q : Queue) : Segment :=
  match findIndex (has_id (heap q) jobId) (pending q) with
  | None => mkSegment q [] [cancelJob_returns false]
  | Some pendingIndex =>
      match pending q !! pendingIndex with
      | None => mkSegment q [] [cancelJob_returns false]
      | Some job =>
          let q := set_pending (delete pendingIndex (pending q)) q in
          let q := mutate (set_status Cancelled) job q in
          let q := mutate (set_cancelledAt now) job q in
          let q := set_failed (failed q ++ [job]) q in
          let q := db_call (updateQueueJob jobId Cancelled None) q in
          mkSegment q [cancelJob_await_update jobId] []
      end
  end.

(** [clearCompletedJobs()]. *)
Definition clearCompletedJobs (q : Queue) : Segment :=
  mkSegment (set_completed [] q) [] [clearCompletedJobs_returns].

Definition id_of (h : list Job) (r : Ref) : string :=
  match h !! r with
  | Some j => id j
  | None => ""
  end.

(** One turn of the loop of [retryFailedJobs] up to its [await]; with no job
    left the function returns [failedJobs.length]. *)
Definition retryFailedJobs_next (now : Z) (failedJobs : list Ref) (total : nat)
    (q : Queue) : Segment :=
  match failedJobs with
  | [] => mkSegment q [] [retryFailedJobs_returns total]
  | job :: rest =>
      let q := mutate (set_status Pending) job q in
      let q := mutate (fun j => set_retryCount (retryCount j + 1) j) job q in
      let q := mutate (set_updatedAt now) job q in
      let q := set_pending (pending q ++ [job]) q in
      let q := db_call (updateQueueJob (id_of (heap q) job) Pending
                          (retryCount <$> heap q !! job)) q in
      mkSegment q [retryFailedJobs_await_update job rest total] []
  end.

(** [retryFailedJobs()] up to its first [await]. *)
Definition retryFailedJobs_begin (now : Z) (q : Queue) : Segment :=
  let failedJobs := failed q in
  let q := set_failed [] q in
  retryFailedJobs_next now failedJobs (length failedJobs) q.

(** A suspended call goes on when the promise it awaits settles. *)
Definition resume (now : Z) (o : Outcome) (f : Frame) (q : Queue) : Segment :=
  match f with
  | addJob_await_save job =>
      match o with
      | resolved =>
          let '(q, fs) := processJob_begin now (id_of (heap q) job) q in
          mkSegment q fs [addJob_returns job]
      | rejected msg => mkSegment q [] [addJob_throws msg]
      end
  | processJob_await_processing jobId job =>
      match o with
      | resolved => mkSegment q [processJob_await_timeout jobId job] []
      | rejected msg =>
          let '(q, fs) := processJob_catch now jobId msg q in mkSegment q fs []
      end
  | processJob_await_timeout jobId job =>
      (* the timer promise cannot be rejected *)
      let '(q, fs) := processJob_complete now jobId job q in mkSegment q fs []
  | processJob_await_completed jobId job =>
      match o with
      | resolved => mkSegment q [] []
      | rejected msg =>
          let '(q, fs) := processJob_catch now jobId msg q in mkSegment q fs []
      end
  | processJob_await_failed jobId => mkSegment q [] []
  | cancelJob_await_update jobId =>
      match o with
      | resolved => mkSegment q [] [cancelJob_returns true]
      | rejected msg => mkSegment q [] [cancelJob_throws msg]
      end
  | retryFailedJobs_await_update job rest total =>
      match o with
      | resolved =>
          let '(q, fs) := processJob_begin now (id_of (heap q) job) q in
          let s := retryFailedJobs_next now rest total q in
          mkSegment (seg_queue s) (fs ++ seg_frames s) (seg_events s)
      | rejected msg => mkSegment q [] [retryFailedJobs_throws msg]
      end
  end.

(** The whole system: the queue, the suspended calls, and what finished
    calls have returned (oldest first). *)
Record State := mkState {
  queue : Queue;
  frames : list Frame;
  out : list Event
}.

Definition init : State := mkState empty_queue [] [].

(** What the environment can do next: call an exported function, or settle
    the promise awaited by the [i]-th suspended call. *)
Inductive Action :=
| call_addJob (jobData : JobData)
| call_cancelJob (jobId : string)
| call_clearCompletedJobs
| call_retryFailedJobs
| settle (i : nat) (o : Outcome).

Definition commit (s : State) (fs : list Frame) (g : Segment) : State :=
  mkState (seg_queue g) (fs ++ seg_frames g) (out s ++ seg_events g).

(** One step, at clock reading [now]. *)
Definition step (s : State) (a : Z * Action) : State :=
  let '(now, act) := a in
  match act with
  | call_addJob jobData => commit s (frames s) (addJob_begin now jobData (queue s))
  | call_cancelJob jobId => commit s (frames s) (cancelJob_begin now jobId (queue s))
  | call_clearCompletedJobs => commit s (frames s) (clearCompletedJobs (queue s))
  | call_retryFailedJobs => commit s (frames s) (retryFailedJobs_begin now (queue s))
  | settle i o =>
      match frames s !! i with
      | None => s
      | Some f => commit s (delete i (frames s)) (resume now o f (queue s))
      end
  end.

Definition run (s : State) (trace : list (Z * Action)) : State :=
  fold_left step trace s.

(** Observations. *)
Definition status_of (s : State) (r : Ref) : option Status :=
  status <$> heap (queue s) !! r.

(** The states a run goes through, the first one included. *)
Fixpoint states (s : State) (trace : list (Z * Action)) : list State :=
  match trace with
  | [] => [s]
  | a :: trace' => s :: states (step s a) trace'
  end.

(** The edges of the job life cycle. *)
Definition allowed_edge (a b : Status) : bool :=
  match a, b with
  | Pending, Processing
  | Processing, Completed
  | Processing, Failed
  | Pending, Cancelled
  | Failed, Pending => true
  | _, _ => false
  end.

(** *** Scenarios *)

(** A message as [POST /add] would hand it over. *)
Definition text_job : JobData :=
  mkJobData (JStr "send_text") (JStr "+15551234567") (JStr "hi") JUndefined JUndefined.

(** A job is added and cancelled while [addJob] still awaits the database;
    later the failed jobs are retried. *)
Definition cancel_then_retry : list (Z * Action) :=
  [ (1000, call_addJob text_job);
    (1001, call_cancelJob "1000");
    (1002, settle 1 resolved);          (* cancelJob returns true *)
    (1003, settle 0 resolved);          (* addJob returns *)
    (2000, call_retryFailedJobs);
    (2001, settle 0 resolved);          (* the loop calls processJob *)
    (2002, settle 0 resolved);
    (3002, settle 0 resolved);          (* the timer fires *)
    (3003, settle 0 resolved) ]%Z.

(** The same without a cancellation racing [addJob]: the job fails once, is
    retried, and is cancelled by its id while [retryFailedJobs] awaits the
    database; the next retry of the failed jobs revives it. *)
Definition cancel_during_retry : list (Z * Action) :=
  [ (1000, call_addJob text_job);
    (1001, settle 0 resolved);          (* addJob returns the job *)
    (1002, settle 0 (rejected "database unavailable"));
    (1003, settle 0 resolved);          (* the job is in the failed list *)
    (5000, call_retryFailedJobs);
    (5001, call_cancelJob "1000");
    (5002, settle 1 resolved);          (* cancelJob returns true *)
    (5003, settle 0 resolved);          (* the first retry returns *)
    (9000, call_retryFailedJobs);
    (9001, settle 0 resolved);          (* the loop calls processJob *)
    (9002, settle 0 resolved);
    (10002, settle 0 resolved);         (* the timer fires *)
    (10003, settle 0 resolved) ]%Z.

(** A job is added and its processing fails: the update that follows the
    move to [processing] is rejected. *)
Definition enqueue_and_fail (jobData : JobData) (t : Z) : list (Z * Action) :=
  [ (t, call_addJob jobData);
    (t, settle 0 resolved);             (* saved; processJob begins *)
    (t, settle 0 (rejected "database unavailable"));
    (t, settle 0 resolved) ].           (* the failure is persisted *)

(** *** Well-formed states

    What holds of every state the machine reaches when no two jobs share
    an id: each array holds jobs of the status it stands for, no job sits
    in two places, and every suspended call still finds its job where it
    left it. *)

Definition status_at (q : Queue) (x : nat) : option Status := status <$> heap q !! x.

(** How often [x] occurs in an array. *)
Fixpoint count_in (l : list nat) (x : nat) : nat :=
  match l with
  | [] => 0
  | y :: l' => (if decide (y = x) then 1 else 0) + count_in l' x
  end.

(** The jobs a suspended [retryFailedJobs] has taken out of [queue.failed]
    and not yet re-queued. *)
Definition rest_of (f : Frame) : list nat :=
  match f with
  | retryFailedJobs_await_update _ rest _ => rest
  | _ => []
  end.

(** The job a suspended [processJob] is working on. *)
Definition active_of (f : Frame) : list nat :=
  match f with
  | processJob_await_processing _ r | processJob_await_timeout _ r => [r]
  | _ => []
  end.

(** The job a suspended [processJob] has completed. *)
Definition done_of (f : Frame) : list nat :=
  match f with
  | processJob_await_completed _ r => [r]
  | _ => []
  end.

(** How often [x] is held, in the sense of [m], by the suspended calls. *)
Fixpoint held (m : Frame -> list nat) (fs : list Frame) (x : nat) : nat :=
  match fs with
  | [] => 0
  | f :: fs' => count_in (m f) x + held m fs' x
  end.

(** What [retryFailedJobs] re-queues: [queue.failed] holds the failed and
    the cancelled jobs. *)
Definition retriable (q : Queue) (x : nat) : Prop :=
  status_at q x = Some Failed \/ status_at q x = Some Cancelled.

Definition unique_ids (h : list Job) : Prop :=
  forall r1 r2 j1 j2,
    h !! r1 = Some j1 -> h !! r2 = Some j2 -> id j1 = id j2 -> r1 = r2.

(** The [jobId] of a suspended [processJob] is the id of its [job]. *)
Definition frame_ids (h : list Job) (f : Frame) : Prop :=
  match f with
  | processJob_await_processing jobId r
  | processJob_await_timeout jobId r
  | processJob_await_completed jobId r => has_id h jobId r = true
  | _ => True
  end.

Record wf_ref (q : Queue) (fs : list Frame) (x : nat) : Prop := mk_wf_ref {
  wf_own : count_in (pending q) x + count_in (processing q) x
           + count_in (failed q) x + held rest_of fs x <= 1;
  wf_act : held active_of fs x <= 1;
  wf_pending : 0 < count_in (pending q) x -> status_at q x = Some Pending;
  wf_processing : 0 < count_in (processing q) x -> status_at q x = Some Processing;
  wf_retry : 0 < count_in (failed q) x + held rest_of fs x -> retriable q x;
  wf_active : 0 < held active_of fs x -> 0 < count_in (processing q) x;
  wf_done : 0 < held done_of fs x -> status_at q x = Some Completed
}.

Record wfq (q : Queue) (fs : list Frame) : Prop := mk_wfq {
  wf_ids : unique_ids (heap q);
  wf_frames : Forall (frame_ids (heap q)) fs;
  wf_refs : forall x, wf_ref q fs x
}.

Definition wf (s : State) : Prop := wfq (queue s) (frames s).

(** An [addJob] reads a clock value that no job has as its id yet. *)
Definition fresh (s : State) (a : Z * Action) : Prop :=
  match a with
  | (now, call_addJob _) => Forall (fun j => id j <> toString now) (heap (queue s))
  | _ => True
  end.

(** What this module does to a status in one step: nothing, an edge of
    the life cycle, or cancelled to pending (through [retryFailedJobs]); a
    new job starts as pending. *)
Definition edge_ok (a b : option Status) : bool :=
  match a, b with
  | None, None => true
  | None, Some Pending => true
  | Some x, Some y =>
      bool_decide (x = y) || allowed_edge x y
      || (bool_decide (x = Cancelled) && bool_decide (y = Pending))
  | _, _ => false
  end.

Definition ids_at (h : list Job) (x : nat) : option string := id <$> h !! x.

Definition same_ids (h h' : list Job) : Prop := forall x, ids_at h' x = ids_at h x.

(** A field assignment that leaves the id alone. *)
Definition keeps_id (f : Job -> Job) : Prop := forall j, id (f j) = id j.

(** Nothing that matters for [x] has changed between two states. *)
Record stable_at (q : Queue) (fs : list Frame) (q' : Queue) (fs' : list Frame)
    (x : nat) : Prop := mk_stable {
  st_status : status_at q' x = status_at q x;
  st_pending : count_in (pending q') x <= count_in (pending q) x;
  st_processing : count_in (processing q') x = count_in (processing q) x;
  st_retry : count_in (failed q') x + held rest_of fs' x
             <= count_in (failed q) x + held rest_of fs x;
  st_act : held active_of fs' x <= held active_of fs x;
  st_done : held done_of fs' x <= held done_of fs x
}.

(** How one segment changes the statuses: not at all, or for one job, from
    one of [froms] to [to]. *)
Definition touch (q q' : Queue) (froms : list Status) (to : Status) : Prop :=
  (forall x, status_at q' x = status_at q x)
  \/ exists r a,
       a ∈ froms /\ status_at q r = Some a /\ status_at q' r = Some to
       /\ forall x, x <> r -> status_at q' x = status_at q x.

Definition edges (s s' : State) : Prop :=
  forall x, edge_ok (status_of s x) (status_of s' x) = true.

(** The ids stay distinct along a run when each [addJob] reads a clock
    value whose string no earlier job has as its id. *)
Fixpoint fresh_run (s : State) (trace : list (Z * Action)) : Prop :=
  match trace with
  | [] => True
  | a :: trace' => fresh s a /\ fresh_run (step s a) trace'
  end.

Fixpoint edges_run (s : State) (trace : list (Z * Action)) : Prop :=
  match trace with
  | [] => True
  | a :: trace' => edges s (step s a) /\ edges_run (step s a) trace'
  end.

End ApiQueue.

(* ===================================================================== *)
(** ** The BullMQ-backed queue module and the [POST /send] handler *)
(* ===================================================================== *)

Module BullQueue.

(** The options given to [new Queue('whatsapp-message-queue', ...)]. *)
Record Backoff := mkBackoff {
  backoff_type : string;
  backoff_delay : Z
}.

Record DefaultJobOptions := mkDefaultJobOptions {
  removeOnComplete : Z;
  removeOnFail : Z;
  attempts : Z;
  backoff : Backoff
}.

Definition defaultJobOptions : DefaultJobOptions :=
  mkDefaultJobOptions 100 50 3 (mkBackoff "exponential" 2000).

(** The argument of [addMessageToQueue]; an absent property is
    [JUndefined]. *)
Record MessageData := mkMessageData {
  recipient : JsVal;
  content : JsVal;
  mediaUrl : JsVal;
  mediaType : JsVal;
  jobType : JsVal;
  priority : JsVal
}.

(** A default of a destructuring pattern applies to [undefined] only. *)
Definition default_to (d : JsVal) (v : JsVal) : JsVal :=
  match v with
  | JUndefined => d
  | _ => v
  end.

(** [priority === 'high' ? 10 : priority === 'low' ? 1 : 5] *)
Definition priority_weight (p : JsVal) : Z :=
  match p with
  | JStr s => if String.eqb s "high" then 10 else if String.eqb s "low" then 1 else 5
  | _ => 5
  end.

(** [parseInt(process.env.X) || d], the variable given as the integer it
    parses to, if any; the integers are those a double holds exactly (below
    [2^53] in absolute value). *)
Definition parseInt_or (v : option Z) (d : Z) : Z :=
  match v with
  | Some z => if (z =? 0)%Z then d else z
  | None => d
  end.

(** Rounding to a double.  The product of two doubles is the double
    nearest to the exact product, a tie going to the even significand; for
    an exact product [m / 2^e] with [m >= 0] that double is
    [round53 m / 2^e], where [round53 m] keeps the 53 leading bits of
    [m]. *)
Definition round53 (m : Z) : Z :=
  let s := (Z.log2 m - 52)%Z in
  if (s <=? 0)%Z then m
  else
    let q := (m / 2 ^ s)%Z in
    let r := (m mod 2 ^ s)%Z in
    let half := (2 ^ (s - 1))%Z in
    if (half <? r)%Z || ((r =? half)%Z && Z.odd q) then ((q + 1) * 2 ^ s)%Z
    else (q * 2 ^ s)%Z.

(** [Math.floor(r * n)] for the double [r = fst r / snd r] that
    [Math.random()] returned ([snd r] is a power of two, [0 <= fst r < snd r]
    and [fst r < 2^53]) and an integer [n]: the product is rounded to a
    double before it is floored. *)
Definition floor_mul (r : Z * Z) (n : Z) : Z :=
  ((Z.sgn n * round53 (fst r * Z.abs n)) / snd r)%Z.

(** [getRandomDelay()] *)
Definition getRandomDelay (SEND_DELAY_MIN SEND_DELAY_MAX : option Z) (random : Z * Z) : Z :=
  let minDelay := parseInt_or SEND_DELAY_MIN 1000 in
  let maxDelay := parseInt_or SEND_DELAY_MAX 3000 in
  (floor_mul random (maxDelay - minDelay + 1) + minDelay)%Z.

Record JobOptions := mkJobOptions {
  opt_jobId : string;
  opt_priority : Z;
  opt_delay : Z
}.

(** A job as [queue.add(name, data, opts)] creates it; [data] is a
    JavaScript object, kept as a map from property names. *)
Record BullJob := mkBullJob {
  name : JsVal;
  data : gmap string JsVal;
  opts : JobOptions
}.

Definition prop (o : gmap string JsVal) (k : string) : JsVal :=
  default JUndefined (o !! k).

Record DbRow := mkDbRow {
  row_jobId : string;
  row_jobType : JsVal;
  row_recipient : JsVal;
  row_content : JsVal;
  row_mediaUrl : JsVal;
  row_mediaType : JsVal;
  row_status : string
}.

(** What one call of [addMessageToQueue] draws from its environment. *)
Record Env := mkEnv {
  uuid : string;                   (* uuidv4() *)
  random : Z * Z;                  (* Math.random(), a double, as a fraction *)
  SEND_DELAY_MIN : option Z;
  SEND_DELAY_MAX : option Z;
  now : Z;                         (* Date.now() *)
  add_outcome : Outcome;           (* await queue.add(...) *)
  save_outcome : Outcome           (* await saveQueueJob(...) *)
}.

Record Store := mkStore {
  added : list BullJob;            (* jobs handed to BullMQ, oldest first *)
  rows : list DbRow                (* rows saved in queue_jobs *)
}.

Record Reply := mkReply {
  reply_jobId : string;
  reply_status : string;
  estimatedProcessingTime : Z
}.

(** [addMessageToQueue(messageData)]; the [catch] block logs and rethrows. *)
Definition addMessageToQueue (e : Env) (messageData : MessageData) (st : Store)
  : Completion Reply * Store :=
  let jobType := default_to (JStr "send_message") (jobType messageData) in
  let priority := default_to (JStr "normal") (priority messageData) in
  let jobId := uuid e in
  let jobOptions :=
    mkJobOptions jobId (priority_weight priority)
      (getRandomDelay (SEND_DELAY_MIN e) (SEND_DELAY_MAX e) (random e)) in
  let payload : gmap string JsVal :=
    <["recipient" := recipient messageData]>
    (<["content" := content messageData]>
    (<["mediaUrl" := mediaUrl messageData]>
    (<["mediaType" := mediaType messageData]> ∅))) in
  match add_outcome e with
  | rejected msg => (Throw (PlainError msg), st)
  | resolved =>
      let st := mkStore (added st ++ [mkBullJob jobType payload jobOptions]) (rows st) in
      match save_outcome e with
      | rejected msg => (Throw (PlainError msg), st)
      | resolved =>
          let row := mkDbRow jobId jobType (recipient messageData) (content messageData)
                       (mediaUrl messageData) (mediaType messageData) "pending" in
          let st := mkStore (added st) (rows st ++ [row]) in
          (Return (mkReply jobId "queued" (now e + opt_delay jobOptions)), st)
      end
  end.

(** The job types [processJob] has a [case] for. *)
Definition recognized (jobType : JsVal) : bool :=
  match jobType with
  | JStr s =>
      String.eqb s "send_message" || String.eqb s "send_media"
      || String.eqb s "send_template"
  | _ => false
  end.

(** [processJob(job)], the worker's processor: [jobType] is read from
    [job.data]; the three senders are placeholders that always succeed. *)
Definition processJob (job : BullJob) : Completion unit :=
  let jobType := prop (data job) "jobType" in
  if recognized jobType then Return tt
  else Throw (PlainError "Unknown job type").

(** *** [POST /send] of [routes/whatsapp.js] *)

Record Body := mkBody {
  body_recipient : JsVal;
  body_content : JsVal;
  body_mediaUrl : JsVal;
  body_mediaType : JsVal;
  body_priority : JsVal
}.

Inductive HttpResponse :=
| status_400 (error : string)
| status_200 (reply : Reply)
| status_500 (error : string).

Definition is_400 (r : HttpResponse) : bool :=
  match r with status_400 _ => true | _ => false end.

Section Handler.

(** [validationResult(req).isEmpty()] for the express-validator chains of
    the route. *)
Variable validation_passes : Body -> bool.

Definition post_send (e : Env) (b : Body) (st : Store) : HttpResponse * Store :=
  if negb (validation_passes b) then (status_400 "Validation failed", st)
  else
    let priority := default_to (JStr "normal") (body_priority b) in
    if negb (truthy (body_content b)) && negb (truthy (body_mediaUrl b)) then
      (status_400 "Either content or mediaUrl must be provided", st)
    else if truthy (body_mediaUrl b) && negb (truthy (body_mediaType b)) then
      (status_400 "Media type is required when media URL is provided", st)
    else
      let messageData :=
        mkMessageData (body_recipient b) (body_content b) (body_mediaUrl b)
                      (body_mediaType b) JUndefined priority in
      match addMessageToQueue e messageData st with
      | (Return result, st') => (status_200 result, st')
      | (Throw _, st') => (status_500 "Failed to send message", st')
      end.

End Handler.

End BullQueue.

(* ===================================================================== *)
(** ** The in-memory store of [api/db.js] and the reads of [api/queue.js] *)
(* ===================================================================== *)

Module ApiDb.

(** A row of [db.queueJobs] is a plain JavaScript object, kept as the map
    from its property names.  The module is modelled in its in-memory
    mode ([POSTGRES_URL] unset, [initDatabase] done); time stamps are clock
    readings instead of ISO strings. *)
Abbreviation Row := (gmap string JsVal) (only parsing).
Abbreviation Table := (list (gmap string JsVal)) (only parsing).

(** [j.k === v] for a string [v]. *)
Definition prop_is (k v : string) (j : Row) : bool :=
  match BullQueue.prop j k with
  | JStr s => String.eqb s v
  | _ => false
  end.

(** [saveQueueJob(jobData)]: the row is
    [{ id: db.queueJobs.length + 1, ...jobData, created_at, updated_at }],
    later properties overriding earlier ones; [job.id] is returned.
    [created_at] and [updated_at] are two readings of the clock. *)
Definition saveQueueJob (created updated : Z) (jobData : Row) (t : Table)
  : JsVal * Table :=
  let job : Row :=
    <["updated_at" := JNum updated]>
      (<["created_at" := JNum created]>
         (jobData ∪ {["id" := JNum (Z.of_nat (length t) + 1)]})) in
  (BullQueue.prop job "id", (t ++ [job])%list).

(** [updateQueueJob(jobId, updates)]: the first row whose [jobId] is the
    given one becomes [{ ...row, ...updates, updated_at }]. *)
Definition updateQueueJob (now : Z) (jobId : string) (updates : Row) (t : Table)
  : bool * Table :=
  match ApiQueue.findIndex (prop_is "jobId" jobId) t with
  | Some jobIndex =>
      (true, alter (fun row : Row => <["updated_at" := JNum now]> (updates ∪ row)) jobIndex t)
  | None => (false, t)
  end.

(** The [filters] argument of [getQueueJobs]: each property is absent or a
    string (the route takes them from the query string). *)
Record Filters := mkFilters {
  filter_status : option string;
  filter_jobType : option string
}.

Definition no_filters : Filters := mkFilters None None.

(** [if (filters.k) { rows = rows.filter(j => j.k === filters.k) }]: an
    absent or empty filter is falsy. *)
Definition filter_by (k : string) (f : option string) (l : Table) : Table :=
  match f with
  | Some v => if String.eqb v "" then l else List.filter (prop_is k v) l
  | None => l
  end.

(** [Array.prototype.slice(start, end)]: a negative index counts from the
    end, every index is clamped to the array. *)
Definition slice_index (len : nat) (i : Z) : nat :=
  if (i <? 0)%Z then Z.to_nat (Z.max 0 (Z.of_nat len + i))
  else Z.to_nat (Z.min i (Z.of_nat len)).

Definition slice {A} (l : list A) (start final : Z) : list A :=
  let k := slice_index (length l) start in
  let e := slice_index (length l) final in
  take (e - k) (drop k l).

(** [Math.ceil(a / b)] on integers; [None] when the quotient is not a
    finite number ([b] is 0). *)
Definition ceil_div (a b : Z) : option Z :=
  if (b =? 0)%Z then None else Some (- ((- a) / b))%Z.

Record Pagination := mkPagination {
  page : Z;
  limit : Z;
  total : Z;
  totalPages : option Z
}.

Record Page := mkPage {
  jobs : list (gmap string JsVal);
  pagination : Pagination
}.

Section WithSort.

(** [rows.sort((a, b) => new Date(b.created_at) - new Date(a.created_at))]
    on a copy of the rows.  Whatever the comparator answers,
    [Array.prototype.sort] returns a rearrangement of its elements; the
    theorems ask no more of it. *)
Variable sort : list (gmap string JsVal) -> list (gmap string JsVal).

Definition filteredJobs (filters : Filters) (t : Table) : Table :=
  filter_by "jobType" (filter_jobType filters)
    (filter_by "status" (filter_status filters) t).

(** [getQueueJobs(filters, page, limit)] *)
Definition getQueueJobs (filters : Filters) (page limit : Z) (t : Table) : Page :=
  let filtered := filteredJobs filters t in
  let total := Z.of_nat (length filtered) in
  let startIndex := ((page - 1) * limit)%Z in
  let endIndex := (startIndex + limit)%Z in
  mkPage (slice (sort filtered) startIndex endIndex)
         (mkPagination page limit total (ceil_div total limit)).

(** [getQueueJobs()]: [filters = {}], [page = 1], [limit = 50]. *)
Definition getQueueJobs_default (t : Table) : Page :=
  getQueueJobs no_filters 1 50 t.

(** The pages [first], [first + 1], ... ([count] of them), one after the
    other. *)
Fixpoint pages (filters : Filters) (limit : Z) (t : Table) (first : Z) (count : nat)
  : list (gmap string JsVal) :=
  match count with
  | O => []
  | S n => (jobs (getQueueJobs filters first limit t)
            ++ pages filters limit t (first + 1) n)%list
  end.

End WithSort.

(** The row in place [k] has the id [k + 1]. *)
Definition ids_in_order (t : Table) : Prop :=
  forall (k : nat) (row : Row),
    t !! k = Some row -> BullQueue.prop row "id" = JNum (Z.of_nat k + 1).

(** What [api/queue.js] writes and never touches again: its rows carry
    [jobId], not [job_id]. *)
Definition queue_row (jobId : string) (d : ApiQueue.JobData) : Row :=
  <["jobId" := JStr jobId]>
  (<["jobType" := ApiQueue.type d]>
  (<["recipient" := ApiQueue.recipient d]>
  (<["content" := ApiQueue.content d]>
  (<["mediaUrl" := ApiQueue.mediaUrl d]>
  (<["mediaType" := ApiQueue.mediaType d]>
  (<["status" := JStr "pending"]> ∅)))))).

End ApiDb.

Module ApiQueueReads.
Import ApiQueue.

(** [[...queue.pending, ...queue.processing, ...queue.completed,
      ...queue.failed]] *)
Definition allJobs (q : Queue) : list nat :=
  (pending q ++ processing q ++ completed q ++ failed q)%list.

(** What [getJob] returns: a job object of the queue, a row of the
    database, or [undefined]. *)
Inductive Found :=
| in_memory (job : nat)
| in_database (row : gmap string JsVal)
| not_found.

Record Counts := mkCounts {
  count_pending : nat;
  count_processing : nat;
  count_completed : nat;
  count_failed : nat
}.

Record QueueStatus := mkQueueStatus {
  inMemory : Counts;
  database_total : Z;
  database : Counts
}.

Section WithSort.

Variable sort : list (gmap string JsVal) -> list (gmap string JsVal).

(** [getJob(jobId)] *)
Definition getJob (jobId : string) (q : Queue) (t : list (gmap string JsVal)) : Found :=
  match List.find (has_id (heap q) jobId) (allJobs q) with
  | Some job => in_memory job
  | None =>
      let dbJobs := ApiDb.getQueueJobs_default sort t in
      match List.find (ApiDb.prop_is "job_id" jobId) (ApiDb.jobs dbJobs) with
      | Some row => in_database row
      | None => not_found
      end
  end.

Definition count_status (st : string) (rows : list (gmap string JsVal)) : nat :=
  length (List.filter (ApiDb.prop_is "status" st) rows).

(** [getQueueStatus()] *)
Definition getQueueStatus (q : Queue) (t : list (gmap string JsVal)) : QueueStatus :=
  let dbJobs := ApiDb.getQueueJobs_default sort t in
  mkQueueStatus
    (mkCounts (length (pending q)) (length (processing q))
              (length (completed q)) (length (failed q)))
    (ApiDb.total (ApiDb.pagination dbJobs))
    (mkCounts (count_status "pending" (ApiDb.jobs dbJobs))
              (count_status "processing" (ApiDb.jobs dbJobs))
              (count_status "completed" (ApiDb.jobs dbJobs))
              (count_status "failed" (ApiDb.jobs dbJobs))).

End WithSort.

(** The array a status stands for: cancelled jobs are kept in
    [queue.failed]. *)
Definition array_of (st : Status) (q : Queue) : list nat :=
  match st with
  | Pending => pending q
  | Processing => processing q
  | Completed => completed q
  | Failed | Cancelled => failed q
  end.

(** Every job in [queue.completed] has the status [completed]. *)
Definition completed_hold (s : State) : Prop :=
  forall x, x ∈ completed (queue s) -> status_of s x = Some Completed.

End ApiQueueReads.

(* ===================================================================== *)
(** ** Input validation utilities ([utils/validation.js]) *)
(* ===================================================================== *)

Module Validation.

(** Strings are sequences of character codes below 256. *)

(** *** [sanitizeHtml] *)

(** [s.replace(/c/g, rep)] for a pattern that is one character: every
    occurrence is replaced, from left to right. *)
Fixpoint replace_all (c : ascii) (rep : string) (s : string) : string :=
  match s with
  | EmptyString => EmptyString
  | String x s' =>
      if Ascii.eqb x c then rep +:+ replace_all c rep s'
      else String x (replace_all c rep s')
  end.

(** The double quote. *)
Definition dquote : ascii := "034"%char.

(** The chain of replacements of [sanitizeHtml], the ampersand first. *)
Definition sanitizeHtml_string (input : string) : string :=
  replace_all "/" "&#x2F;"
    (replace_all "'" "&#x27;"
       (replace_all dquote "&quot;"
          (replace_all ">" "&gt;"
             (replace_all "<" "&lt;"
                (replace_all "&" "&amp;" input))))).

(** [sanitizeHtml(input)]: what is not a string is returned as it is. *)
Definition sanitizeHtml (input : JsVal) : JsVal :=
  match input with
  | JStr s => JStr (sanitizeHtml_string s)
  | _ => input
  end.

(** How often [c] occurs in [s]. *)
Fixpoint occurrences (c : ascii) (s : string) : nat :=
  match s with
  | EmptyString => 0
  | String x s' => (if Ascii.eqb x c then 1 else 0) + occurrences c s'
  end.

(** The characters [sanitizeHtml] replaces. *)
Definition escaped : list ascii := ["&"; "<"; ">"; dquote; "'"; "/"]%char.

(** *** [isValidPhoneNumber] and [isValidMessageContent] *)

(** [\s] and the characters [trim] removes, among the codes below 256. *)
Definition is_whitespace (c : ascii) : bool :=
  let n := nat_of_ascii c in
  (Nat.leb 9 n && Nat.leb n 13) || Nat.eqb n 32 || Nat.eqb n 160.

(** The class [[\s\-\(\)]]. *)
Definition is_separator (c : ascii) : bool :=
  is_whitespace c || Ascii.eqb c "-" || Ascii.eqb c "(" || Ascii.eqb c ")".

(** [phone.replace(/[\s\-\(\)]/g, '')] *)
Fixpoint strip_separators (s : string) : string :=
  match s with
  | EmptyString => EmptyString
  | String c s' =>
      if is_separator c then strip_separators s' else String c (strip_separators s')
  end.

(** [\d] *)
Definition is_digit (c : ascii) : bool :=
  let n := nat_of_ascii c in Nat.leb 48 n && Nat.leb n 57.

Fixpoint all_digits (s : string) : bool :=
  match s with
  | EmptyString => true
  | String c s' => is_digit c && all_digits s'
  end.

(** How many digits [s] has. *)
Fixpoint count_digits (s : string) : nat :=
  match s with
  | EmptyString => 0
  | String c s' => (if is_digit c then 1 else 0) + count_digits s'
  end.

(** [/^\+?[1-9]\d{1,14}$/.test(s)] *)
Definition phoneRegex_test (s : string) : bool :=
  let rest :=
    match s with
    | String c s' => if Ascii.eqb c "+" then s' else s
    | EmptyString => s
    end in
  match rest with
  | String d ds =>
      is_digit d && negb (Ascii.eqb d "0") && all_digits ds
      && Nat.leb 1 (String.length ds) && Nat.leb (String.length ds) 14
  | EmptyString => false
  end.

(** [isValidPhoneNumber(phone)]: a TypeError when [phone] has no
    [replace]. *)
Definition isValidPhoneNumber (phone : JsVal) : Completion bool :=
  match phone with
  | JStr s => Return (phoneRegex_test (strip_separators s))
  | _ => Throw (TypeError "phone.replace is not a function")
  end.

(** [s.trimStart()], [s.trimEnd()], [s.trim()] *)
Fixpoint trimStart (s : string) : string :=
  match s with
  | EmptyString => EmptyString
  | String c s' => if is_whitespace c then trimStart s' else s
  end.

Fixpoint trimEnd (s : string) : string :=
  match s with
  | EmptyString => EmptyString
  | String c s' =>
      match trimEnd s' with
      | EmptyString => if is_whitespace c then EmptyString else String c EmptyString
      | t => String c t
      end
  end.

Definition trim (s : string) : string := trimEnd (trimStart s).

(** [isValidMessageContent(content)] *)
Definition isValidMessageContent (content : JsVal) : bool :=
  match content with
  | JStr s => Nat.ltb 0 (String.length (trim s)) && Nat.leb (String.length s) 4096
  | _ => false
  end.

(** Some character of [s] is not white space. *)
Fixpoint has_visible (s : string) : bool :=
  match s with
  | EmptyString => false
  | String c s' => negb (is_whitespace c) || has_visible s'
  end.

(** *** [validateRateLimit] *)

Record RateData := mkRateData {
  requests : Z;
  resetTime : Z
}.

(** The two properties of the request the middleware reads; it keeps its
    counters in [req.rateLimitData], under the address [req.ip]. *)
Record Req := mkReq {
  ip : option string;
  rateLimitData : option (gmap string RateData)
}.

Inductive Verdict :=
| next                             (* next() *)
| status_429 (seconds : Z).        (* res.status(429).json(...) *)

(** [Math.ceil(x / 1000)] *)
Definition ceil_seconds (x : Z) : Z := (- ((- x) / 1000))%Z.

(** [req.ip || 'unknown'] *)
Definition key_of (req : Req) : string :=
  match ip req with
  | Some s => if String.eqb s "" then "unknown" else s
  | None => "unknown"
  end.

(** [req.rateLimitData] is a plain object: besides the entries the
    middleware stores in it, a lookup finds what every object inherits from
    [Object.prototype] under these names. *)
Definition Object_prototype_names : list string :=
  ["constructor"; "__defineGetter__"; "__defineSetter__"; "hasOwnProperty";
   "__lookupGetter__"; "__lookupSetter__"; "isPrototypeOf";
   "propertyIsEnumerable"; "toString"; "valueOf"; "__proto__";
   "toLocaleString"].

Definition inherited (key : string) : bool :=
  existsb (String.eqb key) Object_prototype_names.

(** The middleware [validateRateLimit(windowMs, maxRequests)] on one
    request, at clock reading [now].  The table holds the entries stored in
    [req.rateLimitData].  Under an inherited name with no stored entry the
    lookup gives a function (or the prototype itself), which is truthy and
    has neither [requests] nor [resetTime]: both comparisons with
    [undefined] are false, [data.requests++] leaves [NaN] on that shared
    object, which changes no later comparison, and [next()] is called;
    nothing is stored. *)
Definition validateRateLimit (windowMs maxRequests : Z) (now : Z) (req : Req)
  : Verdict * Req :=
  let key := key_of req in
  let table := default ∅ (rateLimitData req) in
  match table !! key with
  | None =>
      if inherited key then (next, mkReq (ip req) (Some table))
      else
        (next, mkReq (ip req) (Some (<[key := mkRateData 1 (now + windowMs)]> table)))
  | Some data =>
      if (resetTime data <? now)%Z then
        (next, mkReq (ip req) (Some (<[key := mkRateData 1 (now + windowMs)]> table)))
      else if (maxRequests <=? requests data)%Z then
        (status_429 (ceil_seconds (resetTime data - now)), mkReq (ip req) (Some table))
      else
        (next, mkReq (ip req)
                 (Some (<[key := mkRateData (requests data + 1) (resetTime data)]> table)))
  end.

(** The same request object going through the middleware at the clock
    readings [times], one after the other. *)
Fixpoint serve (windowMs maxRequests : Z) (times : list Z) (req : Req)
  : list Verdict * Req :=
  match times with
  | [] => ([], req)
  | now :: times' =>
      let '(v, req') := validateRateLimit windowMs maxRequests now req in
      let '(vs, req'') := serve windowMs maxRequests times' req' in
      (v :: vs, req'')
  end.

Definition is_next (v : Verdict) : bool :=
  match v with next => true | status_429 _ => false end.

End Validation.

(* ===================================================================== *)
(** ** Message parsing, handlers and reconnection ([playwright.js]) *)
(* ===================================================================== *)

Module Playwright.

(** The properties [parseMessageData] takes out of [rawData]; an absent
    one is [JUndefined]. *)
Record RawData := mkRawData {
  raw_id : JsVal;
  raw_chatId : JsVal;
  raw_chatName : JsVal;
  raw_senderId : JsVal;
  raw_senderName : JsVal;
  raw_messageType : JsVal;
  raw_content : JsVal;
  raw_timestamp : JsVal;
  raw_isFromMe : JsVal;
  raw_mediaUrl : JsVal;
  raw_mediaType : JsVal;
  raw_mediaSize : JsVal;
  raw_thumbnailUrl : JsVal;
  raw_isGroup : JsVal
}.

Record Message := mkMessage {
  messageId : JsVal;
  chatId : JsVal;
  chatName : JsVal;
  senderId : JsVal;
  senderName : JsVal;
  messageType : JsVal;
  content : JsVal;
  timestamp : JsVal;
  isFromMe : JsVal;
  isGroup : JsVal;
  mediaUrl : JsVal;
  mediaType : JsVal;
  mediaSize : JsVal;
  thumbnailUrl : JsVal
}.

(** [a || b] *)
Definition or_else (a b : JsVal) : JsVal := if truthy a then a else b.

Section Parse.

(** [new Date(v).toISOString()]: a RangeError when the date is invalid. *)
Variable Date_toISOString : JsVal -> Completion string.
(** The result of the [k]-th call of [uuidv4()] made by one call of
    [parseMessageData]. *)
Variable uuidv4 : nat -> string.
(** [new Date().toISOString()] *)
Variable now : string.

(** The [try] block; [rawData] is [None] when it is [null] or [undefined],
    which cannot be destructured. *)
Definition parseMessageData_try (rawData : option RawData) : Completion Message :=
  match rawData with
  | None => Throw (TypeError "Cannot destructure rawData")
  | Some r =>
      let isGroup := BullQueue.default_to (JBool false) (raw_isGroup r) in
      let isFromMe := raw_isFromMe r in
      let senderName := raw_senderName r in
      do timestamp <- Date_toISOString (raw_timestamp r);
      Return
        (mkMessage
           (or_else (raw_id r) (JStr (uuidv4 0)))
           (or_else (raw_chatId r) (JStr "unknown"))
           (or_else (raw_chatName r)
              (if truthy isGroup then JStr "Group Chat" else JStr "Personal Chat"))
           (if truthy isFromMe then JStr "me" else or_else senderName (JStr "unknown"))
           (if truthy isFromMe then JStr "Me" else or_else senderName (JStr "Unknown"))
           (or_else (raw_messageType r) (JStr "text"))
           (or_else (raw_content r) (JStr ""))
           (JStr timestamp)
           (or_else isFromMe (JBool false))
           isGroup
           (or_else (raw_mediaUrl r) JNull)
           (or_else (raw_mediaType r) JNull)
           (or_else (raw_mediaSize r) JNull)
           (or_else (raw_thumbnailUrl r) JNull))
  end.

(** How many times the [try] block has called [uuidv4()] when it throws. *)
Definition uuid_calls (rawData : option RawData) : nat :=
  match rawData with
  | Some r => if truthy (raw_id r) then 0 else 1
  | None => 0
  end.

(** The object the [catch] block returns. *)
Definition fallback (k : nat) : Message :=
  mkMessage (JStr (uuidv4 k)) (JStr "unknown") (JStr "Unknown Chat") (JStr "unknown")
            (JStr "Unknown") (JStr "text") (JStr "") (JStr now) (JBool false)
            (JBool false) JNull JNull JNull JNull.

(** [parseMessageData(rawData)] *)
Definition parseMessageData (rawData : option RawData) : Completion Message :=
  try_catch (parseMessageData_try rawData)
            (fun _error => Return (fallback (uuid_calls rawData))).

End Parse.

(** *** Message handlers *)

(** Handlers are functions, compared by identity: a handler is the number
    of the function object. *)

(** [messageHandlers.push(handler)] *)
Definition addMessageHandler (handler : nat) (messageHandlers : list nat) : list nat :=
  (messageHandlers ++ [handler])%list.

(** [removeMessageHandler(handler)]: [indexOf], then [splice(index, 1)]. *)
Definition removeMessageHandler (handler : nat) (messageHandlers : list nat) : list nat :=
  match ApiQueue.findIndex (Nat.eqb handler) messageHandlers with
  | Some index => delete index messageHandlers
  | None => messageHandlers
  end.

(** *** Reconnection *)

(** [Math.min(1000 * Math.pow(2, reconnectAttempts), 30000)] *)
Definition backoffTime (reconnectAttempts : nat) : Z :=
  Z.min (1000 * 2 ^ Z.of_nat reconnectAttempts) 30000.

(** [handleDisconnection()] up to its timer: when the session update and
    [browser.close()] went through, the counter is incremented and the
    wait computed from it; otherwise the [catch] block logs and nothing
    else happens.  No other code assigns [reconnectAttempts]. *)
Definition handleDisconnection (closed : Outcome) (reconnectAttempts : nat)
  : nat * option Z :=
  match closed with
  | resolved => (S reconnectAttempts, Some (backoffTime (S reconnectAttempts)))
  | rejected _ => (reconnectAttempts, None)
  end.

(** The waits of a series of disconnections, from the given counter. *)
Fixpoint waits (outcomes : list Outcome) (reconnectAttempts : nat) : list (option Z) :=
  match outcomes with
  | [] => []
  | o :: outcomes' =>
      let '(n, w) := handleDisconnection o reconnectAttempts in
      w :: waits outcomes' n
  end.

End Playwright.

(* ===================================================================== *)
(** * Properties *)
(* ===================================================================== *)

(** ** Webhook signatures *)

Module WebhookFacts.
Import Webhook.

Lemma replace_prefix (pat rep rest : string) :
  replace pat rep (pat +:+ rest) = rep +:+ rest.
Proof.
  assert (Hp : forall a b, String.prefix a (a +:+ b) = true).
  { induction a as [|c a IH]; intros b; simpl.
    - now destruct b.
    - destruct (ascii_dec c c); [apply IH | congruence]. }
  assert (Hd : forall a b, drop_chars (String.length a) (a +:+ b) = b).
  { induction a as [|c a IH]; intros b; simpl; [reflexivity | apply IH]. }
  destruct pat as [|c pat].
  - destruct rest; reflexivity.
  - change (replace (String c pat) rep (String c pat +:+ rest))
      with (if String.prefix (String c pat) (String c pat +:+ rest)
            then rep +:+ drop_chars (String.length (String c pat)) (String c pat +:+ rest)
            else String c (replace (String c pat) rep (pat +:+ rest))).
    now rewrite Hp, Hd.
Qed.

Lemma Buffer_from_hex_byte (b : byte) (rest : string) :
  Buffer_from_hex (hex_of_byte b +:+ rest) = b :: Buffer_from_hex rest.
Proof. destruct b; reflexivity. Qed.

(** Decoding a hex digest gives back the digested bytes. *)
Lemma Buffer_from_hex_digest (bs : Buffer) :
  Buffer_from_hex (digest_hex bs) = bs.
Proof.
  induction bs as [|b bs IH]; [reflexivity|].
  cbn [digest_hex]. now rewrite Buffer_from_hex_byte, IH.
Qed.

Lemma timingSafeEqual_refl (a : Buffer) : timingSafeEqual a a = Return true.
Proof.
  unfold timingSafeEqual. rewrite Nat.eqb_refl.
  now rewrite bool_decide_eq_true_2.
Qed.

Lemma timingSafeEqual_catch_neq (a b : Buffer) :
  a <> b ->
  try_catch (timingSafeEqual a b) (fun _ => Return false) = Return false.
Proof.
  intros Hne. unfold timingSafeEqual.
  destruct (Nat.eqb (length a) (length b)); simpl; [|reflexivity].
  now rewrite bool_decide_eq_false_2.
Qed.

Section Signing.

Variable hmac_sha256 : string -> string -> Buffer.

Local Notation "'verify'" := (verifyWebhookSignature hmac_sha256).
Local Notation "'sign'" := (signature_header hmac_sha256).

(** What verification computes on string arguments carrying the header
    value of the sender. *)
Lemma verify_signed (payload' payload secret : string) :
  verify (JStr payload') (JStr (sign secret payload)) (JStr secret)
  = try_catch (timingSafeEqual (hmac_sha256 secret payload')
                               (hmac_sha256 secret payload))
              (fun _ => Return false).
Proof.
  unfold verifyWebhookSignature, verifyWebhookSignature_try, signature_header.
  cbn [createHmac_update_digest signature_replace bind].
  rewrite (replace_prefix "sha256=" "" _).
  change ("" +:+ ?x) with x.
  now rewrite !Buffer_from_hex_digest.
Qed.

Lemma verify_signed_same (payload secret : string) :
  verify (JStr payload) (JStr (sign secret payload)) (JStr secret) = Return true.
Proof. rewrite verify_signed. now rewrite timingSafeEqual_refl. Qed.

(** C7: for every payload and secret, verifying the header value the sender
    computes ([sha256=] followed by the hex HMAC-SHA256 of the payload under
    the secret) returns [true]; verifying another payload, whose HMAC under
    the secret differs, against that signature returns [false].
    Verification recomputes the HMAC and compares the two buffers with
    [crypto.timingSafeEqual]. *)
Theorem signature_round_trip (payload secret : string) :
  verifyWebhookSignature hmac_sha256 (JStr payload)
    (JStr (signature_header hmac_sha256 secret payload)) (JStr secret)
  = Return true
  /\ forall payload' : string,
       hmac_sha256 secret payload' <> hmac_sha256 secret payload ->
       verifyWebhookSignature hmac_sha256 (JStr payload')
         (JStr (signature_header hmac_sha256 secret payload)) (JStr secret)
       = Return false.
Proof.
  split.
  - apply verify_signed_same.
  - intros payload' Hne. rewrite verify_signed.
    now apply timingSafeEqual_catch_neq.
Qed.

(** The signature that [sendWebhook] puts on the wire for a non-empty secret
    verifies against the body it sends. *)
Lemma sendWebhook_signature_verifies
    (Data World : Type) (stringify : Envelope Data -> Completion (option string))
    (fetch : Request -> World -> FetchResult * World)
    (u : string) (d : Envelope Data) (k payload : string) (n : Net World) :
  k <> "" ->
  stringify d = Return (Some payload) ->
  exists r sig,
    posted _ (snd (sendWebhook hmac_sha256 Data World stringify fetch u d (Some k) n))
    = (posted _ n ++ [r])%list
    /\ req_body r = Some payload
    /\ req_signature r = Some sig
    /\ verify (JStr payload) (JStr sig) (JStr k) = Return true.
Proof.
  intros Hk Hs. unfold sendWebhook, sendWebhook_try, signature_for. rewrite Hs.
  destruct (String.eqb_spec k ""); [congruence|].
  destruct (fetch _ (world _ n)) as [result w] eqn:Hf.
  eexists _, _. split; [|split; [|split]].
  - destruct result as [status|e]; [destruct (response_ok status)|]; reflexivity.
  - reflexivity.
  - reflexivity.
  - apply verify_signed_same.
Qed.

(** C10: [verifyWebhookSignature] returns a boolean for all arguments and
    never throws: it returns what the comparison gives when the [try] block
    runs to its end, and [false] when anything in it throws (a secret or
    payload that is not a string, a signature that is not a string, or
    decoded buffers of different lengths, as for a signature that is not
    hex or has the wrong length). *)
Theorem verifyWebhookSignature_total (payload signature secret : JsVal) :
  verifyWebhookSignature hmac_sha256 payload signature secret
  = Return (match verifyWebhookSignature_try hmac_sha256 payload signature secret with
            | Return b => b
            | Throw _ => false
            end).
Proof.
  unfold verifyWebhookSignature.
  now destruct (verifyWebhookSignature_try hmac_sha256 payload signature secret).
Qed.

(** A signature that does not decode to as many bytes as the HMAC has is
    refused. *)
Lemma verify_wrong_length (payload signature secret : string) :
  length (Buffer_from_hex (replace "sha256=" "" signature))
  <> length (hmac_sha256 secret payload) ->
  verify (JStr payload) (JStr signature) (JStr secret) = Return false.
Proof.
  intros Hlen.
  unfold verifyWebhookSignature, verifyWebhookSignature_try.
  cbn [createHmac_update_digest signature_replace bind].
  rewrite Buffer_from_hex_digest. unfold timingSafeEqual.
  destruct (Nat.eqb_spec (length (hmac_sha256 secret payload))
              (length (Buffer_from_hex (replace "sha256=" "" signature))));
    [congruence | reflexivity].
Qed.

End Signing.

End WebhookFacts.

(** C7, at a concrete keyed function standing for the HMAC. *)
Lemma signature_round_trip_witness :
  let mac := fun k m : string => list_byte_of_string (k +:+ m) in
  mac "0123456789abcdef" "{}" <> mac "0123456789abcdef" "[]"
  /\ Webhook.verifyWebhookSignature mac (JStr "{}")
       (JStr (Webhook.signature_header mac "0123456789abcdef" "[]"))
       (JStr "0123456789abcdef")
     = Return false.
Proof.
  intros mac.
  assert (Hne : mac "0123456789abcdef" "{}" <> mac "0123456789abcdef" "[]")
    by (vm_compute; discriminate).
  split; [exact Hne|].
  exact (proj2 (WebhookFacts.signature_round_trip mac "[]" "0123456789abcdef") "{}" Hne).
Defined.

(** ** Webhook fan-out *)

Module FanoutFacts.
Import Webhook.

Section Fanout.

Variable Data : Type.
Variable World : Type.
Variable toISOString_now : World -> string.

Local Notation "'notify'" := (notify_each Data World toISOString_now).

(** The inner [try/catch] lets nothing out of the loop. *)
Lemma notify_each_returns (scope : Scope Data World) (message : Data)
    (webhooks : list WebhookRow) (n : Net World) :
  fst (notify scope message webhooks n) = Return tt.
Proof.
  revert n. induction webhooks as [|webhook rest IH]; intros n; [reflexivity|].
  cbn [notify_each]. destruct (includes _ _); [|apply IH].
  destruct (call_sendWebhook _ _ scope _ _ _ n) as [[b|e] n']; cbn; apply IH.
Qed.

(** Nothing gets out of [triggerWebhooks], whatever its scope binds. *)
Lemma triggerWebhooks_in_returns (scope : Scope Data World) enabled message n :
  fst (triggerWebhooks_in Data World toISOString_now scope enabled message n)
  = Return tt.
Proof.
  unfold triggerWebhooks_in, triggerWebhooks_try.
  destruct (negb _); [reflexivity|].
  destruct (call_getWebhooks _ _ scope (world _ n)) as [[ws|e] w]; [|reflexivity].
  pose proof (notify_each_returns scope message ws (mkNet _ w (posted _ n))) as H.
  destruct (notify scope message ws _) as [c n']. cbn in H. now rewrite H.
Qed.

(** With [sendWebhook] unbound the loop posts nothing: each call throws a
    ReferenceError into the inner [catch]. *)
Lemma notify_each_unbound (scope : Scope Data World) (message : Data)
    (webhooks : list WebhookRow) (n : Net World) :
  bound_sendWebhook _ _ scope = None ->
  notify scope message webhooks n = (Return tt, n).
Proof.
  intros Hs. induction webhooks as [|webhook rest IH]; [reflexivity|].
  cbn [notify_each]. destruct (includes _ _); [|exact IH].
  unfold call_sendWebhook. rewrite Hs. cbn. exact IH.
Qed.

(** C6: [triggerWebhooks] of [playwright.js] never lets an exception out,
    but it never posts anything either: the module neither imports nor
    declares [getWebhooks] and [sendWebhook], so with webhooks enabled the
    call of [getWebhooks] throws a ReferenceError into the outer [catch]
    before any row is loaded.  Whatever the subscriptions are and however
    their endpoints would answer, the call returns normally and leaves the
    list of POSTs and the world as they were: no subscriber receives its
    POST. *)
Theorem triggerWebhooks_posts_nothing
    (enabled : option string) (message : Data) (n : Net World) :
  triggerWebhooks Data World toISOString_now enabled message n = (Return tt, n).
Proof.
  unfold triggerWebhooks, triggerWebhooks_in, triggerWebhooks_try,
    call_getWebhooks, playwright_scope.
  cbn [bound_getWebhooks]. destruct n as [w posts].
  now destruct (negb _).
Qed.

End Fanout.

End FanoutFacts.

(** ** The in-memory queue *)

Module ApiQueueFacts.
Import ApiQueue.

Lemma run_app (s : State) (t1 t2 : list (Z * Action)) :
  run s (t1 ++ t2) = run (run s t1) t2.
Proof. apply fold_left_app. Qed.

Lemma run_cons (s : State) (a : Z * Action) (t : list (Z * Action)) :
  run s (a :: t) = run (step s a) t.
Proof. reflexivity. Qed.

Lemma run_nil (s : State) : run s [] = s.
Proof. reflexivity. Qed.

(** Evaluation of a run given by an equation [E : sf = run s trace], one
    step at a time; the ids compared on the way are syntactically equal. *)
Ltac eval_step E :=
  rewrite run_cons in E;
  repeat (progress (cbv -[app run String.eqb toString Z.add Z.of_nat] in E;
                    cbn [app] in E; rewrite ?String.eqb_refl in E)).

Ltac eval_run E := repeat (eval_step E); rewrite run_nil in E.

(** *** Life cycle *)

(** C1, on the run in which a job is cancelled while pending and the failed
    jobs are retried afterwards: the status of the job goes from [Cancelled]
    back to [Pending], and on to [Processing] and [Completed].  [cancelJob]
    puts the cancelled job into [queue.failed], and [retryFailedJobs]
    re-queues whatever that array holds. *)
Theorem cancelled_job_is_retried :
  map (fun s => status_of s 0) (states init cancel_then_retry)
  = [ None; Some Pending; Some Cancelled; Some Cancelled; Some Cancelled;
      Some Pending; Some Processing; Some Processing; Some Completed;
      Some Completed ]
  /\ allowed_edge Cancelled Pending = false
  /\ out (run init cancel_then_retry)
     = [cancelJob_returns true; addJob_returns 0; retryFailedJobs_returns 1].
Proof. repeat split; vm_compute; reflexivity. Qed.

(** The same edge when the job is cancelled by the id that [addJob] has
    returned, during a retry. *)
Lemma cancelled_job_is_retried_after_failure :
  map (fun s => status_of s 0) (states init cancel_during_retry)
  = [ None; Some Pending; Some Processing; Some Failed; Some Failed;
      Some Pending; Some Cancelled; Some Cancelled; Some Cancelled;
      Some Pending; Some Processing; Some Processing; Some Completed;
      Some Completed ]
  /\ out (run init cancel_during_retry)
     = [addJob_returns 0; cancelJob_returns true; retryFailedJobs_returns 1;
        retryFailedJobs_returns 1].
Proof. split; vm_compute; reflexivity. Qed.

(** *** Identifiers *)

(** C4, on two calls of [addJob] at one clock reading: both jobs get the
    reading as their id.  And a job that [addJob] returns after the save has
    been taken up by [processJob] already: its status is [processing]. *)
Theorem addJob_same_instant_same_id (now now' : Z) (jobData : JobData) :
  (let s := run init [(now, call_addJob jobData); (now, call_addJob jobData)] in
   pending (queue s) = [0; 1]
   /\ id <$> heap (queue s) !! 0 = Some (toString now)
   /\ id <$> heap (queue s) !! 1 = Some (toString now))
  /\ (let s := run init [(now, call_addJob jobData); (now', settle 0 resolved)] in
      out s = [addJob_returns 0] /\ status_of s 0 = Some Processing).
Proof.
  split.
  - remember (run init _) as sf eqn:E. eval_run E. subst sf.
    repeat split.
  - remember (run init _) as sf eqn:E. eval_run E. subst sf.
    repeat split.
Qed.

(** *** Cancellation *)

Lemma findIndex_Some {A} (p : A -> bool) (l : list A) (i : nat) :
  findIndex p l = Some i -> exists x, l !! i = Some x /\ p x = true.
Proof.
  revert i. induction l as [|x l IH]; intros i; cbn; [discriminate|].
  destruct (p x) eqn:Hp.
  - intros [= <-]. eauto.
  - destruct (findIndex p l) as [k|]; cbn; [|discriminate].
    intros [= <-]. now apply IH.
Qed.

Lemma findIndex_None {A} (p : A -> bool) (l : list A) :
  findIndex p l = None <-> Forall (fun x => p x = false) l.
Proof.
  induction l as [|x l IH]; cbn.
  - split; [constructor | reflexivity].
  - destruct (p x) eqn:Hp.
    + split; [discriminate|]. intros H. inversion H; congruence.
    + destruct (findIndex p l) as [k|]; cbn.
      * split; [discriminate|]. intros H. inversion H; subst.
        now apply IH in H3.
      * split; [|reflexivity]. intros _. constructor; [exact Hp | now apply IH].
Qed.

(** C5, as stated, fails: for an id that no job has, [cancelJob] returns
    [false]; it does not throw. *)
Lemma cancelJob_unknown_id_returns_false :
  step init (1000%Z, call_cancelJob "1700000000000")
  = mkState empty_queue [] [cancelJob_returns false]
  /\ cancelJob_begin 1000 "1700000000000" empty_queue
     <> mkSegment empty_queue [] [cancelJob_throws "Job not found"].
Proof. split; [reflexivity | discriminate]. Qed.

(** C5, amended: when a job in the pending array has the id, [cancelJob]
    removes the first such job from the array, sets its status to
    [cancelled], leaves the processing and completed arrays and every other
    job object as they are, and returns [true] once the database update has
    gone through.  When no job in the pending array has the id (the job is
    being processed, is finished, or does not exist) it returns [false] and
    changes nothing; no error tells an unknown id apart. *)
Theorem cancelJob_outcomes (now : Z) (jobId : string) (q : Queue) :
  (forall i : nat,
     findIndex (has_id (heap q) jobId) (pending q) = Some i ->
     exists job : Ref,
       let g := cancelJob_begin now jobId q in
       pending q !! i = Some job
       /\ seg_frames g = [cancelJob_await_update jobId] /\ seg_events g = []
       /\ pending (seg_queue g) = delete i (pending q)
       /\ status <$> heap (seg_queue g) !! job = Some Cancelled
       /\ (forall r : Ref, r <> job -> heap (seg_queue g) !! r = heap q !! r)
       /\ processing (seg_queue g) = processing q
       /\ completed (seg_queue g) = completed q
       /\ forall now' : Z,
            resume now' resolved (cancelJob_await_update jobId) (seg_queue g)
            = mkSegment (seg_queue g) [] [cancelJob_returns true])
  /\ (Forall (fun r => has_id (heap q) jobId r = false) (pending q) ->
      cancelJob_begin now jobId q = mkSegment q [] [cancelJob_returns false]).
Proof.
  split.
  - intros i Hi. destruct (findIndex_Some _ _ _ Hi) as (job & Hjob & Hid).
    exists job. unfold cancelJob_begin. rewrite Hi, Hjob. cbn.
    unfold has_id in Hid. destruct (heap q !! job) as [j|] eqn:Hj; [|discriminate].
    repeat split; try reflexivity.
    + rewrite !list_lookup_alter_eq, Hj. reflexivity.
    + intros r Hr. now rewrite !list_lookup_alter_ne by congruence.
  - intros Hnone. apply findIndex_None in Hnone.
    unfold cancelJob_begin. now rewrite Hnone.
Qed.

End ApiQueueFacts.

(** C5, amended, on a queue with one pending job and on the empty queue. *)
Lemma cancelJob_outcomes_witness :
  let q := ApiQueue.seg_queue
             (ApiQueue.addJob_begin 1000 ApiQueue.text_job ApiQueue.empty_queue) in
  (ApiQueue.findIndex (ApiQueue.has_id (ApiQueue.heap q) "1000") (ApiQueue.pending q)
   = Some 0
   /\ exists job,
        ApiQueue.pending q !! 0 = Some job
        /\ ApiQueue.status
             <$> ApiQueue.heap
                   (ApiQueue.seg_queue (ApiQueue.cancelJob_begin 1001 "1000" q)) !! job
           = Some ApiQueue.Cancelled)
  /\ (Forall (fun r => ApiQueue.has_id (ApiQueue.heap ApiQueue.empty_queue) "1000" r = false)
        (ApiQueue.pending ApiQueue.empty_queue)
      /\ ApiQueue.cancelJob_begin 1001 "1000" ApiQueue.empty_queue
         = ApiQueue.mkSegment ApiQueue.empty_queue [] [ApiQueue.cancelJob_returns false]).
Proof.
  intros q. split.
  - assert (Hi : ApiQueue.findIndex (ApiQueue.has_id (ApiQueue.heap q) "1000")
                   (ApiQueue.pending q) = Some 0) by reflexivity.
    split; [exact Hi|].
    destruct (proj1 (ApiQueueFacts.cancelJob_outcomes 1001 "1000" q) 0 Hi)
      as (job & Hjob & _ & _ & _ & Hst & _).
    exists job. split; [exact Hjob | exact Hst].
  - assert (Hn : Forall (fun r => ApiQueue.has_id (ApiQueue.heap ApiQueue.empty_queue)
                                    "1000" r = false)
                   (ApiQueue.pending ApiQueue.empty_queue)) by constructor.
    split; [exact Hn|].
    exact (proj2 (ApiQueueFacts.cancelJob_outcomes 1001 "1000" ApiQueue.empty_queue) Hn).
Defined.

(** ** The life cycle in general

    With distinct ids, every step of the in-memory queue leaves each status
    alone or moves it along an edge of the life cycle, or from cancelled
    back to pending. *)

Module LifeCycleFacts.
Import ApiQueue ApiQueueFacts.

Lemma count_in_app l k x : count_in (l ++ k) x = count_in l x + count_in k x.
Proof. induction l as [|y l IH]; cbn; [reflexivity|]. rewrite IH. lia. Qed.

Lemma count_in_perm l k x : l ≡ₚ k -> count_in l x = count_in k x.
Proof. induction 1; cbn; lia. Qed.

Lemma count_in_delete l i r x :
  l !! i = Some r ->
  count_in l x = (if decide (r = x) then 1 else 0) + count_in (delete i l) x.
Proof. intros H. now rewrite (count_in_perm _ _ x (delete_Permutation l i r H)). Qed.

Lemma count_in_pos l x : 0 < count_in l x <-> x ∈ l.
Proof.
  induction l as [|y l IH]; cbn.
  - split; [lia | intros H; inversion H].
  - rewrite elem_of_cons. destruct (decide (y = x)); subst.
    + split; [now left | lia].
    + rewrite <- IH. split; [intros; right; lia | intros [->|H]; [congruence | lia]].
Qed.

Lemma count_in_filter (p : nat -> bool) l x :
  count_in (List.filter p l) x = if p x then count_in l x else 0.
Proof.
  induction l as [|y l IH]; cbn; [now destruct (p x)|].
  destruct (p y) eqn:Hy; cbn; rewrite IH; destruct (decide (y = x)); subst;
    destruct (p x); try congruence; lia.
Qed.

Lemma held_app m fs gs x : held m (fs ++ gs) x = held m fs x + held m gs x.
Proof. induction fs as [|f fs IH]; cbn; [reflexivity|]. rewrite IH. lia. Qed.

Lemma held_perm m fs gs x : fs ≡ₚ gs -> held m fs x = held m gs x.
Proof. induction 1; cbn; lia. Qed.

Lemma held_delete m fs k f x :
  fs !! k = Some f ->
  held m fs x = count_in (m f) x + held m (delete k fs) x.
Proof. intros H. now rewrite (held_perm m _ _ x (delete_Permutation fs k f H)). Qed.

Lemma has_id_ids h jobId r :
  has_id h jobId r = match ids_at h r with Some i => String.eqb i jobId | None => false end.
Proof. unfold has_id, ids_at. now destruct (h !! r). Qed.

Lemma unique_ids_ids h :
  unique_ids h <->
  forall r1 r2 i, ids_at h r1 = Some i -> ids_at h r2 = Some i -> r1 = r2.
Proof.
  unfold unique_ids, ids_at. split.
  - intros U r1 r2 i H1 H2.
    destruct (h !! r1) as [j1|] eqn:E1; [|discriminate].
    destruct (h !! r2) as [j2|] eqn:E2; [|discriminate].
    cbn in *. eapply U; eauto. congruence.
  - intros U r1 r2 j1 j2 H1 H2 Hid. apply (U r1 r2 (id j1)).
    + now rewrite H1.
    + rewrite H2. cbn. now rewrite Hid.
Qed.

Lemma same_ids_has_id h h' jobId r :
  same_ids h h' -> has_id h' jobId r = has_id h jobId r.
Proof. intros H. now rewrite !has_id_ids, H. Qed.

Lemma same_ids_unique h h' : same_ids h h' -> unique_ids h -> unique_ids h'.
Proof.
  intros H U. apply unique_ids_ids. intros r1 r2 i. rewrite !H.
  now apply unique_ids_ids.
Qed.

Lemma same_ids_frames h h' fs :
  same_ids h h' -> Forall (frame_ids h) fs -> Forall (frame_ids h') fs.
Proof.
  intros H HF. eapply Forall_impl; [exact HF|]. intros f.
  destruct f; cbn; auto; now rewrite (same_ids_has_id h h').
Qed.

Lemma same_ids_alter f r h : keeps_id f -> same_ids h (alter f r h).
Proof.
  intros Hf x. unfold ids_at. rewrite list_lookup_alter.
  destruct (decide (r = x)) as [->|]; [|reflexivity].
  destruct (h !! x); cbn; [f_equal; apply Hf | reflexivity].
Qed.

Lemma same_ids_trans h1 h2 h3 : same_ids h1 h2 -> same_ids h2 h3 -> same_ids h1 h3.
Proof. intros H1 H2 x. now rewrite H2, H1. Qed.

Lemma has_id_Some h jobId r :
  has_id h jobId r = true -> exists j, h !! r = Some j /\ id j = jobId.
Proof.
  unfold has_id. destruct (h !! r) as [j|]; [|discriminate].
  intros H. exists j. split; [reflexivity|]. now apply String.eqb_eq.
Qed.

Lemma unique_has_id h jobId r1 r2 :
  unique_ids h -> has_id h jobId r1 = true -> has_id h jobId r2 = true -> r1 = r2.
Proof.
  intros U H1 H2.
  destruct (has_id_Some _ _ _ H1) as (j1 & E1 & I1).
  destruct (has_id_Some _ _ _ H2) as (j2 & E2 & I2).
  eapply U; eauto. congruence.
Qed.

Lemma wf_ref_stable q fs q' fs' x :
  stable_at q fs q' fs' x -> wf_ref q fs x -> wf_ref q' fs' x.
Proof.
  intros [S1 S2 S3 S4 S5 S6] [W1 W2 W3 W4 W5 W6 W7].
  unfold retriable in *. constructor; unfold retriable; rewrite ?S1, ?S3.
  - lia.
  - lia.
  - intros H. apply W3. lia.
  - exact W4.
  - intros H. apply W5. lia.
  - intros H. apply W6. lia.
  - intros H. apply W7. lia.
Qed.

Lemma wfq_update q fs q' fs' r :
  wfq q fs ->
  unique_ids (heap q') ->
  Forall (frame_ids (heap q')) fs' ->
  (forall x, x <> r -> stable_at q fs q' fs' x) ->
  wf_ref q' fs' r ->
  wfq q' fs'.
Proof.
  intros [U F R] HU HF Hst Hr. constructor; [exact HU | exact HF |].
  intros x. destruct (decide (x = r)) as [->|Hx]; [exact Hr|].
  apply (wf_ref_stable q fs); auto.
Qed.

Lemma wfq_stable q fs q' fs' :
  wfq q fs ->
  unique_ids (heap q') ->
  Forall (frame_ids (heap q')) fs' ->
  (forall x, stable_at q fs q' fs' x) ->
  wfq q' fs'.
Proof.
  intros W HU HF Hst. apply (wfq_update q fs q' fs' 0 W HU HF); [auto|].
  apply (wf_ref_stable q fs); [auto | apply (wf_refs _ _ W)].
Qed.

Lemma count_in_single r x : count_in [r] x = if decide (r = x) then 1 else 0.
Proof. cbn. destruct (decide (r = x)); lia. Qed.

Lemma count_in_lookup l i r : l !! i = Some r -> 0 < count_in l r.
Proof. intros H. apply count_in_pos. now apply list_elem_of_lookup_2 in H. Qed.

Ltac setter_keeps_id := intros ?; reflexivity.

Ltac same_ids_alters :=
  cbn;
  repeat first
    [ apply same_ids_alter; setter_keeps_id
    | eapply same_ids_trans; [|apply same_ids_alter; setter_keeps_id] ];
  try (intros ?; reflexivity).

Ltac counts :=
  cbn; unfold status_at; cbn;
  rewrite ?held_app, ?count_in_app, ?count_in_single; cbn.

(** Dropping a suspended call keeps the state well formed. *)
Lemma wfq_drop q fs k f : fs !! k = Some f -> wfq q fs -> wfq q (delete k fs).
Proof.
  intros Hk W. apply (wfq_stable q fs); [exact W | apply W | |].
  - apply Forall_delete, W.
  - intros x. constructor; try reflexivity; try lia;
      rewrite (held_delete _ fs k f x Hk); lia.
Qed.

Lemma delete_app_l {A} (l k : list A) (i : nat) (x : A) :
  l !! i = Some x -> delete i (l ++ k)%list = (delete i l ++ k)%list.
Proof.
  revert i. induction l as [|y l IH]; intros [|i]; cbn; try discriminate.
  - reflexivity.
  - intros H. f_equal. now apply IH.
Qed.

Lemma wfq_processJob_begin now jobId q fs q' new :
  wfq q fs -> processJob_begin now jobId q = (q', new) ->
  wfq q' (fs ++ new) /\ touch q q' [Pending] Processing.
Proof.
  intros W. unfold processJob_begin.
  destruct (findIndex _ _) as [i|] eqn:Hi.
  2:{ intros [= <- <-]. rewrite app_nil_r. split; [exact W | now left]. }
  destruct (findIndex_Some _ _ _ Hi) as (r & Hr & Hid). rewrite Hr.
  intros [= <- <-].
  assert (Hs : same_ids (heap q)
                 (alter (set_startedAt now) r (alter (set_status Processing) r (heap q))))
    by same_ids_alters.
  destruct (has_id_Some _ _ _ Hid) as (j & Hj & _).
  pose proof (count_in_lookup _ _ _ Hr) as Hp.
  pose proof (count_in_delete _ _ _ r Hr) as Hd.
  rewrite decide_True in Hd by reflexivity.
  destruct (wf_refs _ _ W r) as [W1 W2 W3 W4 W5 W6 W7].
  specialize (W3 Hp).
  split.
  - apply (wfq_update q fs _ _ r W).
    + apply (same_ids_unique (heap q)); [exact Hs | apply W].
    + apply Forall_app. split.
      * apply (same_ids_frames (heap q)); [exact Hs | apply W].
      * repeat constructor. cbn. now rewrite (same_ids_has_id (heap q)).
    + intros x Hx. constructor; counts; rewrite ?decide_False by congruence.
      * now rewrite !list_lookup_alter_ne by congruence.
      * rewrite (count_in_delete _ _ _ x Hr). lia.
      * lia.
      * lia.
      * lia.
      * lia.
    + constructor; unfold retriable; counts;
        rewrite ?decide_True by reflexivity;
        rewrite ?list_lookup_alter_eq, ?Hj; cbn.
      * lia.
      * destruct (held active_of fs r) eqn:E; [lia|].
        assert (0 < count_in (processing q) r) by (apply W6; lia). lia.
      * lia.
      * reflexivity.
      * lia.
      * lia.
      * intros H. assert (H0 : 0 < held done_of fs r) by lia.
        specialize (W7 H0). congruence.
  - right. exists r, Pending. repeat split.
    + now left.
    + exact W3.
    + unfold status_at. cbn. now rewrite !list_lookup_alter_eq, Hj.
    + intros x Hx. unfold status_at. cbn.
      now rewrite !list_lookup_alter_ne by congruence.
Qed.

Lemma wfq_cancelJob_begin now jobId q fs :
  wfq q fs ->
  wfq (seg_queue (cancelJob_begin now jobId q))
      (fs ++ seg_frames (cancelJob_begin now jobId q))
  /\ touch q (seg_queue (cancelJob_begin now jobId q)) [Pending] Cancelled.
Proof.
  intros W. unfold cancelJob_begin.
  destruct (findIndex _ _) as [i|] eqn:Hi.
  2:{ cbn. rewrite app_nil_r. split; [exact W | now left]. }
  destruct (findIndex_Some _ _ _ Hi) as (r & Hr & Hid). rewrite Hr.
  cbn [seg_queue seg_frames].
  assert (Hs : same_ids (heap q)
                 (alter (set_cancelledAt now) r (alter (set_status Cancelled) r (heap q))))
    by same_ids_alters.
  destruct (has_id_Some _ _ _ Hid) as (j & Hj & _).
  pose proof (count_in_lookup _ _ _ Hr) as Hp.
  pose proof (count_in_delete _ _ _ r Hr) as Hd.
  rewrite decide_True in Hd by reflexivity.
  destruct (wf_refs _ _ W r) as [W1 W2 W3 W4 W5 W6 W7].
  specialize (W3 Hp).
  split.
  - apply (wfq_update q fs _ _ r W).
    + apply (same_ids_unique (heap q)); [exact Hs | apply W].
    + apply Forall_app. split.
      * apply (same_ids_frames (heap q)); [exact Hs | apply W].
      * repeat constructor.
    + intros x Hx. constructor; counts; rewrite ?decide_False by congruence.
      * now rewrite !list_lookup_alter_ne by congruence.
      * rewrite (count_in_delete _ _ _ x Hr). lia.
      * lia.
      * lia.
      * lia.
      * lia.
    + constructor; unfold retriable; counts;
        rewrite ?decide_True by reflexivity;
        rewrite ?list_lookup_alter_eq, ?Hj; cbn.
      * lia.
      * lia.
      * lia.
      * lia.
      * now right.
      * intros H. assert (H0 : 0 < held active_of fs r) by lia.
        specialize (W6 H0). lia.
      * intros H. assert (H0 : 0 < held done_of fs r) by lia.
        specialize (W7 H0). congruence.
  - right. exists r, Pending. repeat split.
    + now left.
    + exact W3.
    + unfold status_at. cbn. now rewrite !list_lookup_alter_eq, Hj.
    + intros x Hx. unfold status_at. cbn.
      now rewrite !list_lookup_alter_ne by congruence.
Qed.

(** The [catch] block run for the call that had moved job [r0] to
    [processing]. *)
Lemma wfq_processJob_catch_active now jobId msg q fs k r0 q' new :
  wfq q fs ->
  fs !! k = Some (processJob_await_processing jobId r0) ->
  processJob_catch now jobId msg q = (q', new) ->
  wfq q' (delete k fs ++ new) /\ touch q q' [Processing] Failed.
Proof.
  intros W Hk. unfold processJob_catch.
  destruct (findIndex _ _) as [i|] eqn:Hi.
  2:{ intros [= <- <-]. rewrite app_nil_r.
      split; [now apply (wfq_drop q fs k _ Hk) | now left]. }
  destruct (findIndex_Some _ _ _ Hi) as (r & Hr & Hid). rewrite Hr.
  intros [= <- <-].
  assert (Hf : frame_ids (heap q) (processJob_await_processing jobId r0)).
  { eapply Forall_lookup_1; [apply W | exact Hk]. }
  cbn in Hf.
  assert (r = r0) as <- by (eapply unique_has_id; eauto; apply W).
  assert (Hs : same_ids (heap q)
                 (alter (set_failedAt now) r
                    (alter (set_error msg) r (alter (set_status Failed) r (heap q)))))
    by same_ids_alters.
  destruct (has_id_Some _ _ _ Hid) as (j & Hj & _).
  pose proof (count_in_lookup _ _ _ Hr) as Hp.
  pose proof (count_in_delete _ _ _ r Hr) as Hd.
  rewrite decide_True in Hd by reflexivity.
  destruct (wf_refs _ _ W r) as [W1 W2 W3 W4 W5 W6 W7].
  specialize (W4 Hp).
  pose proof (held_delete active_of fs k _ r Hk) as Ha. cbn in Ha.
  rewrite decide_True in Ha by reflexivity.
  split.
  - apply (wfq_update q fs _ _ r W).
    + apply (same_ids_unique (heap q)); [exact Hs | apply W].
    + apply Forall_app. split.
      * apply (same_ids_frames (heap q)); [exact Hs | apply Forall_delete, W].
      * repeat constructor.
    + intros x Hx.
      pose proof (held_delete rest_of fs k _ x Hk) as Hr'.
      pose proof (held_delete active_of fs k _ x Hk) as Ha'.
      pose proof (held_delete done_of fs k _ x Hk) as Hd'.
      cbn in Hr', Ha', Hd'. rewrite decide_False in Ha' by congruence.
      constructor; counts; rewrite ?decide_False by congruence.
      * now rewrite !list_lookup_alter_ne by congruence.
      * lia.
      * rewrite (count_in_delete _ _ _ x Hr). rewrite decide_False by congruence. lia.
      * lia.
      * lia.
      * lia.
    + pose proof (held_delete rest_of fs k _ r Hk) as Hr'.
      pose proof (held_delete done_of fs k _ r Hk) as Hd'.
      cbn in Hr', Hd'.
      constructor; unfold retriable; counts;
        rewrite ?decide_True by reflexivity;
        rewrite ?list_lookup_alter_eq, ?Hj; cbn.
      * lia.
      * lia.
      * lia.
      * lia.
      * now left.
      * lia.
      * intros H. assert (H0 : 0 < held done_of fs r) by lia.
        specialize (W7 H0). congruence.
  - right. exists r, Processing. repeat split.
    + now left.
    + exact W4.
    + unfold status_at. cbn. now rewrite !list_lookup_alter_eq, Hj.
    + intros x Hx. unfold status_at. cbn.
      now rewrite !list_lookup_alter_ne by congruence.
Qed.

(** The [catch] block run after the job was completed finds nothing to
    move. *)
Lemma wfq_processJob_catch_done now jobId msg q fs k r0 :
  wfq q fs ->
  fs !! k = Some (processJob_await_completed jobId r0) ->
  processJob_catch now jobId msg q = (q, []).
Proof.
  intros W Hk. unfold processJob_catch.
  destruct (findIndex _ _) as [i|] eqn:Hi; [|reflexivity].
  exfalso.
  destruct (findIndex_Some _ _ _ Hi) as (r & Hr & Hid).
  assert (Hf : frame_ids (heap q) (processJob_await_completed jobId r0)).
  { eapply Forall_lookup_1; [apply W | exact Hk]. }
  cbn in Hf.
  assert (r = r0) as <- by (eapply unique_has_id; eauto; apply W).
  pose proof (count_in_lookup _ _ _ Hr) as Hp.
  destruct (wf_refs _ _ W r) as [W1 W2 W3 W4 W5 W6 W7].
  specialize (W4 Hp).
  pose proof (held_delete done_of fs k _ r Hk) as Hd. cbn in Hd.
  rewrite decide_True in Hd by reflexivity.
  assert (H0 : 0 < held done_of fs r) by lia.
  specialize (W7 H0). congruence.
Qed.

(** The update after the move to [processing] went through: the call now
    waits for the timer. *)
Lemma wfq_processing_resolved jobId r q fs k :
  wfq q fs ->
  fs !! k = Some (processJob_await_processing jobId r) ->
  wfq q (delete k fs ++ [processJob_await_timeout jobId r]).
Proof.
  intros W Hk.
  assert (Hf : frame_ids (heap q) (processJob_await_processing jobId r)).
  { eapply Forall_lookup_1; [apply W | exact Hk]. }
  apply (wfq_stable q fs); [exact W | apply W | |].
  - apply Forall_app. split; [apply Forall_delete, W | repeat constructor; exact Hf].
  - intros x.
    pose proof (held_delete rest_of fs k _ x Hk) as Hr'.
    pose proof (held_delete active_of fs k _ x Hk) as Ha'.
    pose proof (held_delete done_of fs k _ x Hk) as Hd'.
    cbn in Hr', Ha', Hd'.
    constructor; counts; try reflexivity; lia.
Qed.

Lemma wfq_processJob_complete now jobId r q fs k q' new :
  wfq q fs ->
  fs !! k = Some (processJob_await_timeout jobId r) ->
  processJob_complete now jobId r q = (q', new) ->
  wfq q' (delete k fs ++ new) /\ touch q q' [Processing] Completed.
Proof.
  intros W Hk. unfold processJob_complete. intros [= <- <-].
  assert (Hid : frame_ids (heap q) (processJob_await_timeout jobId r)).
  { eapply Forall_lookup_1; [apply W | exact Hk]. }
  cbn in Hid.
  assert (Hs : same_ids (heap q)
                 (alter (set_completedAt now) r (alter (set_status Completed) r (heap q))))
    by same_ids_alters.
  destruct (has_id_Some _ _ _ Hid) as (j & Hj & _).
  destruct (wf_refs _ _ W r) as [W1 W2 W3 W4 W5 W6 W7].
  pose proof (held_delete active_of fs k _ r Hk) as Ha. cbn in Ha.
  rewrite decide_True in Ha by reflexivity.
  assert (Hp : 0 < count_in (processing q) r) by (apply W6; lia).
  specialize (W4 Hp).
  split.
  - apply (wfq_update q fs _ _ r W).
    + apply (same_ids_unique (heap q)); [exact Hs | apply W].
    + apply Forall_app. split.
      * apply (same_ids_frames (heap q)); [exact Hs | apply Forall_delete, W].
      * repeat constructor. cbn. now rewrite (same_ids_has_id (heap q)).
    + intros x Hx.
      pose proof (held_delete rest_of fs k _ x Hk) as Hr'.
      pose proof (held_delete active_of fs k _ x Hk) as Ha'.
      pose proof (held_delete done_of fs k _ x Hk) as Hd'.
      cbn in Hr', Ha', Hd'. rewrite decide_False in Ha' by congruence.
      constructor; counts; rewrite ?decide_False by congruence.
      * now rewrite !list_lookup_alter_ne by congruence.
      * lia.
      * rewrite count_in_filter. rewrite (same_ids_has_id (heap q)) by exact Hs.
        destruct (has_id (heap q) jobId x) eqn:Hx'; cbn; [|reflexivity].
        exfalso. apply Hx. eapply unique_has_id; eauto. apply W.
      * lia.
      * lia.
      * lia.
    + pose proof (held_delete rest_of fs k _ r Hk) as Hr'.
      pose proof (held_delete done_of fs k _ r Hk) as Hd'.
      cbn in Hr', Hd'.
      constructor; unfold retriable; counts;
        rewrite ?decide_True by reflexivity;
        rewrite ?count_in_filter, ?(same_ids_has_id (heap q) _ _ _ Hs), ?Hid;
        rewrite ?list_lookup_alter_eq, ?Hj; cbn.
      * lia.
      * lia.
      * lia.
      * lia.
      * lia.
      * lia.
      * reflexivity.
  - right. exists r, Processing. repeat split.
    + now left.
    + exact W4.
    + unfold status_at. cbn. now rewrite !list_lookup_alter_eq, Hj.
    + intros x Hx. unfold status_at. cbn.
      now rewrite !list_lookup_alter_ne by congruence.
Qed.

(** One turn of the loop of [retryFailedJobs], for the call suspended as
    the [k]-th frame. *)
Lemma wfq_retryFailedJobs_next now job rest total q fs k :
  wfq q fs ->
  fs !! k = Some (retryFailedJobs_await_update job rest total) ->
  wfq (seg_queue (retryFailedJobs_next now rest total q))
      (delete k fs ++ seg_frames (retryFailedJobs_next now rest total q))
  /\ touch q (seg_queue (retryFailedJobs_next now rest total q))
       [Failed; Cancelled] Pending.
Proof.
  intros W Hk. destruct rest as [|r rest]; cbn [retryFailedJobs_next seg_queue seg_frames].
  { rewrite app_nil_r. split; [now apply (wfq_drop q fs k _ Hk) | now left]. }
  set (F1 := set_status Pending).
  set (F2 := fun j : Job => set_retryCount (retryCount j + 1) j).
  set (F3 := set_updatedAt now).
  assert (Hs : same_ids (heap q) (alter F3 r (alter F2 r (alter F1 r (heap q)))))
    by (subst F1 F2 F3; same_ids_alters).
  destruct (wf_refs _ _ W r) as [W1 W2 W3 W4 W5 W6 W7].
  pose proof (held_delete rest_of fs k _ r Hk) as Hr. cbn in Hr.
  rewrite decide_True in Hr by reflexivity.
  assert (Hret : retriable q r) by (apply W5; lia).
  assert (exists a, status_at q r = Some a /\ a ∈ [Failed; Cancelled]) as (a & Ha & Hin).
  { destruct Hret as [H|H]; eexists; (split; [exact H|]); repeat constructor. }
  assert (exists j, heap q !! r = Some j) as (j & Hj).
  { unfold status_at in Ha. destruct (heap q !! r); [eauto | discriminate]. }
  split.
  - apply (wfq_update q fs _ _ r W).
    + apply (same_ids_unique (heap q)); [exact Hs | apply W].
    + apply Forall_app. split.
      * apply (same_ids_frames (heap q)); [exact Hs | apply Forall_delete, W].
      * repeat constructor.
    + intros x Hx.
      pose proof (held_delete rest_of fs k _ x Hk) as Hr'.
      pose proof (held_delete active_of fs k _ x Hk) as Ha'.
      pose proof (held_delete done_of fs k _ x Hk) as Hd'.
      cbn in Hr', Ha', Hd'. rewrite decide_False in Hr' by congruence.
      constructor; counts; rewrite ?decide_False by congruence.
      * now rewrite !list_lookup_alter_ne by congruence.
      * lia.
      * lia.
      * lia.
      * lia.
      * lia.
    + pose proof (held_delete active_of fs k _ r Hk) as Ha'.
      pose proof (held_delete done_of fs k _ r Hk) as Hd'.
      cbn in Ha', Hd'.
      constructor; unfold retriable; counts;
        rewrite ?decide_True by reflexivity;
        rewrite ?list_lookup_alter_eq, ?Hj; cbn.
      * lia.
      * lia.
      * reflexivity.
      * lia.
      * lia.
      * intros H. assert (H0 : 0 < held active_of fs r) by lia.
        specialize (W6 H0). lia.
      * intros H. assert (H0 : 0 < held done_of fs r) by lia.
        specialize (W7 H0). destruct Hret; congruence.
  - right. exists r, a. repeat split.
    + exact Hin.
    + exact Ha.
    + unfold status_at. cbn. now rewrite !list_lookup_alter_eq, Hj.
    + intros x Hx. unfold status_at. cbn.
      now rewrite !list_lookup_alter_ne by congruence.
Qed.

Lemma delete_snoc {A} (l : list A) (x : A) : delete (length l) (l ++ [x])%list = l.
Proof. induction l as [|y l IH]; cbn; [reflexivity | f_equal; exact IH]. Qed.

Lemma lookup_snoc {A} (l : list A) (x : A) : (l ++ [x])%list !! length l = Some x.
Proof. induction l as [|y l IH]; cbn; [reflexivity | exact IH]. Qed.

Lemma wfq_retryFailedJobs_begin now q fs :
  wfq q fs ->
  wfq (seg_queue (retryFailedJobs_begin now q))
      (fs ++ seg_frames (retryFailedJobs_begin now q))
  /\ touch q (seg_queue (retryFailedJobs_begin now q)) [Failed; Cancelled] Pending.
Proof.
  intros W. unfold retryFailedJobs_begin.
  set (total := length (failed q)).
  set (f := retryFailedJobs_await_update 0 (failed q) total).
  assert (W0 : wfq (set_failed [] q) (fs ++ [f])).
  { apply (wfq_stable q fs); [exact W | apply W | |].
    - apply Forall_app. split; [apply W | repeat constructor].
    - intros x. constructor; counts; try reflexivity; lia. }
  destruct (wfq_retryFailedJobs_next now 0 (failed q) total (set_failed [] q)
              (fs ++ [f]) (length fs) W0 (lookup_snoc fs f)) as [W1 T1].
  rewrite delete_snoc in W1. split; [exact W1 | exact T1].
Qed.

Lemma wfq_clearCompletedJobs q fs :
  wfq q fs -> wfq (seg_queue (clearCompletedJobs q)) (fs ++ seg_frames (clearCompletedJobs q)).
Proof.
  intros W. cbn. rewrite app_nil_r.
  apply (wfq_stable q fs); [exact W | apply W | apply W |].
  intros x. constructor; counts; try reflexivity; lia.
Qed.

Lemma status_at_None q x : length (heap q) <= x -> status_at q x = None.
Proof. intros H. unfold status_at. now rewrite lookup_ge_None_2. Qed.

Lemma wfq_addJob_begin now jobData q fs :
  wfq q fs ->
  Forall (fun j => id j <> toString now) (heap q) ->
  wfq (seg_queue (addJob_begin now jobData q))
      (fs ++ seg_frames (addJob_begin now jobData q))
  /\ status_at q (length (heap q)) = None
  /\ status_at (seg_queue (addJob_begin now jobData q)) (length (heap q)) = Some Pending
  /\ forall x, x <> length (heap q) ->
       status_at (seg_queue (addJob_begin now jobData q)) x = status_at q x.
Proof.
  intros W Hfresh. unfold addJob_begin. cbn [seg_queue seg_frames].
  set (job := mkJob _ _ _ _ _ _ _ _ _ _ _).
  set (r := length (heap q)).
  assert (Hnone : status_at q r = None) by (apply status_at_None; lia).
  assert (Hold : forall x j, heap q !! x = Some j -> (heap q ++ [job])%list !! x = Some j).
  { intros x j H. rewrite lookup_app_l; [exact H | now apply lookup_lt_Some in H]. }
  assert (Hother : forall x, x <> r ->
            (heap q ++ [job])%list !! x = heap q !! x).
  { intros x Hx. destruct (decide (x < r)) as [Hlt|Hge].
    - now rewrite lookup_app_l.
    - rewrite !lookup_ge_None_2; [reflexivity | fold r; lia |].
      rewrite length_app. cbn. fold r. lia. }
  assert (Hnew : (heap q ++ [job])%list !! r = Some job) by apply lookup_snoc.
  destruct (wf_refs _ _ W r) as [W1 W2 W3 W4 W5 W6 W7].
  unfold retriable in W5. rewrite Hnone in *.
  assert (count_in (pending q) r = 0)
    by (destruct (count_in (pending q) r); [reflexivity | discriminate W3; lia]).
  assert (count_in (processing q) r = 0)
    by (destruct (count_in (processing q) r); [reflexivity | discriminate W4; lia]).
  assert (count_in (failed q) r + held rest_of fs r = 0).
  { destruct (count_in (failed q) r + held rest_of fs r); [reflexivity|].
    destruct W5 as [?|?]; [lia | discriminate | discriminate]. }
  assert (held done_of fs r = 0)
    by (destruct (held done_of fs r); [reflexivity | discriminate W7; lia]).
  assert (held active_of fs r = 0)
    by (destruct (held active_of fs r); [reflexivity | specialize (W6 ltac:(lia)); lia]).
  split; [|repeat split].
  - apply (wfq_update q fs _ _ r W).
    + cbn. intros r1 r2 j1 j2 E1 E2 Hid.
      destruct (decide (r1 = r)) as [->|N1], (decide (r2 = r)) as [->|N2];
        [reflexivity | | |].
      * rewrite Hnew in E1. rewrite Hother in E2 by exact N2.
        injection E1 as <-. exfalso.
        apply (proj1 (Forall_lookup _ _) Hfresh r2 j2 E2). now rewrite <- Hid.
      * rewrite Hnew in E2. rewrite Hother in E1 by exact N1.
        injection E2 as <-. exfalso.
        apply (proj1 (Forall_lookup _ _) Hfresh r1 j1 E1). now rewrite Hid.
      * rewrite Hother in E1, E2 by assumption. eapply (wf_ids _ _ W); eauto.
    + apply Forall_app. split; [|repeat constructor].
      eapply Forall_impl; [apply W|]. intros f'.
      destruct f'; cbn; auto; intros Hf;
        destruct (has_id_Some _ _ _ Hf) as (j & Hj & Hid);
        unfold has_id; rewrite (Hold _ _ Hj); now apply String.eqb_eq.
    + intros x Hx. constructor; counts; rewrite ?decide_False by congruence;
        rewrite ?Hother by exact Hx; try reflexivity; lia.
    + constructor; unfold retriable; counts;
        rewrite ?decide_True by reflexivity; rewrite ?Hnew; cbn; try lia.
      * reflexivity.
  - unfold status_at. cbn. fold r. now rewrite Hnew.
  - intros x Hx. unfold status_at. cbn. now rewrite Hother.
Qed.

Lemma edge_ok_refl o : edge_ok o o = true.
Proof. destruct o as [[]|]; reflexivity. Qed.

Lemma touch_edges q q' froms to :
  touch q q' froms to ->
  (forall a, a ∈ froms -> edge_ok (Some a) (Some to) = true) ->
  forall x, edge_ok (status_at q x) (status_at q' x) = true.
Proof.
  intros [Hsame | (r & a & Hin & Ha & Hb & Hother)] Hedge x.
  - rewrite Hsame. apply edge_ok_refl.
  - destruct (decide (x = r)) as [->|Hx].
    + rewrite Ha, Hb. now apply Hedge.
    + rewrite Hother by exact Hx. apply edge_ok_refl.
Qed.

Lemma from_listed (froms : list Status) (to a : Status) :
  a ∈ froms ->
  (forall b, b ∈ froms -> edge_ok (Some b) (Some to) = true) ->
  edge_ok (Some a) (Some to) = true.
Proof. intros Hin H. now apply H. Qed.

Ltac edge_cases :=
  let a := fresh "a" in let Ha := fresh "Ha" in
  intros a Ha; repeat (apply elem_of_cons in Ha as [->|Ha]); try reflexivity; inversion Ha.

Lemma touch_then_edges q q1 q2 :
  touch q q1 [Pending] Processing ->
  touch q1 q2 [Failed; Cancelled] Pending ->
  forall x, edge_ok (status_at q x) (status_at q2 x) = true.
Proof.
  intros T1 T2 x.
  destruct T1 as [S1 | (r1 & a1 & Hin1 & Ha1 & Hb1 & O1)].
  - rewrite <- S1. revert x. apply (touch_edges _ _ _ _ T2). edge_cases.
  - destruct T2 as [S2 | (r2 & a2 & Hin2 & Ha2 & Hb2 & O2)].
    + rewrite S2. destruct (decide (x = r1)) as [->|Hx].
      * rewrite Ha1, Hb1. now apply (from_listed _ _ _ Hin1); edge_cases.
      * rewrite O1 by exact Hx. apply edge_ok_refl.
    + assert (r2 <> r1).
      { intros ->. rewrite Hb1 in Ha2. injection Ha2 as <-.
        repeat (apply elem_of_cons in Hin2 as [Hin2|Hin2]); try discriminate.
        inversion Hin2. }
      destruct (decide (x = r1)) as [->|Hx1].
      * rewrite O2 by congruence. rewrite Ha1, Hb1.
        now apply (from_listed _ _ _ Hin1); edge_cases.
      * rewrite <- (O1 x Hx1).
        destruct (decide (x = r2)) as [->|Hx2].
        -- rewrite Ha2, Hb2. now apply (from_listed _ _ _ Hin2); edge_cases.
        -- rewrite O2 by exact Hx2. apply edge_ok_refl.
Qed.

(** One step from a well-formed state, adding no job under an id already
    in use: the state stays well formed, and every status stays as it is or
    moves along an edge of the life cycle or from cancelled to pending. *)
Theorem step_wf (s : State) (a : Z * Action) :
  wf s -> fresh s a -> wf (step s a) /\ edges s (step s a).
Proof.
  destruct s as [q fs o]. destruct a as [now act]. unfold wf, edges, status_of.
  cbn [queue frames]. intros W Hfresh.
  destruct act as [jobData | jobId | | | i oc]; cbn [step commit queue frames].
  - destruct (wfq_addJob_begin now jobData q fs W Hfresh) as (W' & Hn & Hp & Ho).
    split; [exact W'|]. intros x.
    fold (status_at q x). fold (status_at (seg_queue (addJob_begin now jobData q)) x).
    destruct (decide (x = length (heap q))) as [->|Hx].
    + now rewrite Hn, Hp.
    + rewrite Ho by exact Hx. apply edge_ok_refl.
  - destruct (wfq_cancelJob_begin now jobId q fs W) as [W' T].
    split; [exact W'|]. apply (touch_edges _ _ _ _ T). edge_cases.
  - split; [now apply wfq_clearCompletedJobs|]. intros x. apply edge_ok_refl.
  - destruct (wfq_retryFailedJobs_begin now q fs W) as [W' T].
    split; [exact W'|]. apply (touch_edges _ _ _ _ T). edge_cases.
  - destruct (fs !! i) as [f|] eqn:Hi; cbn [queue frames].
    2:{ split; [exact W | intros x; apply edge_ok_refl]. }
    pose proof (wfq_drop q fs i f Hi W) as Wd.
    destruct f as [r | jobId r | jobId r | jobId r | jobId | jobId | r rest total];
      cbn [resume].
    + (* addJob awaiting the save *)
      destruct oc as [|msg]; cbn [commit queue frames seg_queue seg_frames].
      * destruct (processJob_begin now (id_of (heap q) r) q) as [q' new] eqn:Hb.
        cbn [commit queue frames seg_queue seg_frames].
        destruct (wfq_processJob_begin _ _ _ _ _ _ Wd Hb) as [W' T].
        split; [exact W'|]. apply (touch_edges _ _ _ _ T). edge_cases.
      * rewrite app_nil_r. split; [exact Wd | intros x; apply edge_ok_refl].
    + (* processJob awaiting the update to processing *)
      destruct oc as [|msg]; cbn [commit queue frames seg_queue seg_frames].
      * split; [now apply wfq_processing_resolved | intros x; apply edge_ok_refl].
      * destruct (processJob_catch now jobId msg q) as [q' new] eqn:Hc.
        cbn [commit queue frames seg_queue seg_frames].
        destruct (wfq_processJob_catch_active _ _ _ _ _ _ _ _ _ W Hi Hc) as [W' T].
        split; [exact W'|]. apply (touch_edges _ _ _ _ T). edge_cases.
    + (* processJob awaiting the timer *)
      destruct (processJob_complete now jobId r q) as [q' new] eqn:Hc.
      cbn [commit queue frames seg_queue seg_frames].
      destruct (wfq_processJob_complete _ _ _ _ _ _ _ _ W Hi Hc) as [W' T].
      split; [exact W'|]. apply (touch_edges _ _ _ _ T). edge_cases.
    + (* processJob awaiting the update to completed *)
      destruct oc as [|msg]; cbn [commit queue frames seg_queue seg_frames].
      * rewrite app_nil_r. split; [exact Wd | intros x; apply edge_ok_refl].
      * rewrite (wfq_processJob_catch_done now jobId msg q fs i r W Hi).
        cbn [seg_queue seg_frames]. rewrite app_nil_r.
        split; [exact Wd | intros x; apply edge_ok_refl].
    + cbn [commit queue frames seg_queue seg_frames]. rewrite app_nil_r.
      split; [exact Wd | intros x; apply edge_ok_refl].
    + destruct oc as [|msg]; cbn [commit queue frames seg_queue seg_frames]; rewrite app_nil_r;
        (split; [exact Wd | intros x; apply edge_ok_refl]).
    + (* retryFailedJobs awaiting the update of one job *)
      destruct oc as [|msg]; cbn [commit queue frames seg_queue seg_frames].
      * destruct (processJob_begin now (id_of (heap q) r) q) as [q1 new1] eqn:Hb.
        cbn [commit queue frames seg_queue seg_frames].
        destruct (wfq_processJob_begin _ _ _ _ _ _ W Hb) as [W1 T1].
        assert (Hi1 : (fs ++ new1)%list !! i
                      = Some (retryFailedJobs_await_update r rest total)).
        { rewrite lookup_app_l; [exact Hi | now apply lookup_lt_Some in Hi]. }
        destruct (wfq_retryFailedJobs_next now r rest total q1 _ i W1 Hi1) as [W2 T2].
        rewrite (delete_app_l _ _ _ _ Hi), <- app_assoc in W2.
        split; [exact W2|]. exact (touch_then_edges _ _ _ T1 T2).
      * rewrite app_nil_r. split; [exact Wd | intros x; apply edge_ok_refl].
Qed.

Lemma wf_init : wf init.
Proof.
  constructor.
  - intros r1 r2 j1 j2 H. inversion H.
  - constructor.
  - intros x. constructor; cbn; unfold retriable, status_at; cbn; try lia.
Qed.

(** The same along a whole run. *)
Theorem run_edges (trace : list (Z * Action)) (s : State) :
  wf s -> fresh_run s trace -> edges_run s trace /\ wf (run s trace).
Proof.
  revert s. induction trace as [|a trace IH]; intros s W F; cbn.
  - split; [exact I | exact W].
  - destruct F as [Fa Ft]. destruct (step_wf s a W Fa) as [W' E].
    destruct (IH _ W' Ft) as [E' W'']. split; [split; assumption | exact W''].
Qed.

(** X23: from the empty queue: as long as the ids are distinct, cancelled to
    pending is the only move outside the life cycle that a run can make. *)
Corollary reachable_edges (trace : list (Z * Action)) :
  fresh_run init trace -> edges_run init trace.
Proof. intros F. exact (proj1 (run_edges trace init wf_init F)). Qed.

End LifeCycleFacts.

(** ** Enqueue through [POST /send] *)

Module BullQueueFacts.
Import BullQueue.

(** The three priorities are mapped to 10, 5 and 1; anything else counts as
    normal. *)
Lemma priority_weight_values :
  priority_weight (JStr "high") = 10%Z
  /\ priority_weight (JStr "normal") = 5%Z
  /\ priority_weight (JStr "low") = 1%Z
  /\ priority_weight (default_to (JStr "normal") JUndefined) = 5%Z.
Proof. repeat split. Qed.

(** The queue is created with three attempts and an exponential back-off
    whose delay is 2000 ms. *)
Lemma defaultJobOptions_values :
  attempts defaultJobOptions = 3%Z
  /\ backoff_type (backoff defaultJobOptions) = "exponential"
  /\ backoff_delay (backoff defaultJobOptions) = 2000%Z.
Proof. repeat split. Qed.

(** When BullMQ and the database accept the job, [addMessageToQueue] hands
    BullMQ one job named after the job type, whose data has no [jobType]
    property, and answers with the generated id and the status [queued]. *)
Lemma addMessageToQueue_resolved (e : Env) (md : MessageData) (st : Store) :
  add_outcome e = resolved ->
  save_outcome e = resolved ->
  exists job reply st',
    addMessageToQueue e md st = (Return reply, st')
    /\ added st' = (added st ++ [job])%list
    /\ name job = default_to (JStr "send_message") (jobType md)
    /\ prop (data job) "jobType" = JUndefined
    /\ opt_priority (opts job) = priority_weight (default_to (JStr "normal") (priority md))
    /\ reply_jobId reply = uuid e
    /\ reply_status reply = "queued".
Proof.
  intros Ha Hs. unfold addMessageToQueue. rewrite Ha, Hs.
  eexists _, _, _. repeat split.
Qed.

(** C3, as stated, fails: a message with content and a job type that
    [processJob] has no case for is enqueued. *)
Lemma unrecognized_type_is_enqueued :
  let e := mkEnv "3f2504e0-4f89-41d3-9a0c-0305e82c3301" (1, 2)%Z None None
             1700000000000%Z resolved resolved in
  let md := mkMessageData (JStr "+15551234567") (JStr "hi") JUndefined JUndefined
              (JStr "send_sticker") (JStr "high") in
  recognized (jobType md) = false
  /\ fst (addMessageToQueue e md (mkStore [] []))
     = Return (mkReply "3f2504e0-4f89-41d3-9a0c-0305e82c3301" "queued" 1700000002000%Z).
Proof. split; reflexivity. Qed.

Section Handler.

Variable validation_passes : Body -> bool.

(** C3, amended: [POST /send] answers 400 exactly when the field validators
    report an error, or content and mediaUrl are both falsy, or mediaUrl is
    truthy and mediaType is falsy.  A body that passes the validators and
    has content but no mediaUrl is enqueued (status [queued]) when BullMQ and
    the database accept it.  The job type is not looked at when a message is
    enqueued: [addMessageToQueue] accepts every [jobType]. *)
Theorem post_send_rejects_iff (e : Env) (b : Body) (st : Store) :
  (is_400 (fst (post_send validation_passes e b st)) = true
   <-> validation_passes b = false
       \/ (truthy (body_content b) = false /\ truthy (body_mediaUrl b) = false)
       \/ (truthy (body_mediaUrl b) = true /\ truthy (body_mediaType b) = false))
  /\ (validation_passes b = true ->
      truthy (body_content b) = true ->
      body_mediaUrl b = JUndefined ->
      add_outcome e = resolved ->
      save_outcome e = resolved ->
      exists reply,
        fst (post_send validation_passes e b st) = status_200 reply
        /\ reply_jobId reply = uuid e /\ reply_status reply = "queued")
  /\ (forall (md : MessageData) (st' : Store),
        add_outcome e = resolved ->
        save_outcome e = resolved ->
        exists reply,
          fst (addMessageToQueue e md st') = Return reply
          /\ reply_status reply = "queued").
Proof.
  split; [|split].
  - unfold post_send.
    destruct (validation_passes b); cbn [negb].
    + destruct (truthy (body_content b)), (truthy (body_mediaUrl b)),
        (truthy (body_mediaType b)); cbn [negb andb];
        try (destruct (addMessageToQueue _ _ _) as [[r|err] st']);
        cbn; split; intros H; try discriminate; try tauto;
        try (right; tauto);
        repeat match goal with
               | H : _ \/ _ |- _ => destruct H
               | H : _ /\ _ |- _ => destruct H
               end; discriminate.
    + cbn. split; [intros _; now left | reflexivity].
  - intros Hv Hc Hm Ha Hs. unfold post_send. rewrite Hv, Hc, Hm. cbn [negb andb truthy].
    destruct (addMessageToQueue_resolved e
                (mkMessageData (body_recipient b) (body_content b) JUndefined
                   (body_mediaType b) JUndefined
                   (default_to (JStr "normal") (body_priority b))) st Ha Hs)
      as (job & reply & st' & Heq & _ & _ & _ & _ & Hid & Hst).
    rewrite Heq. exists reply. now repeat split.
  - intros md st' Ha Hs.
    destruct (addMessageToQueue_resolved e md st' Ha Hs)
      as (job & reply & st'' & Heq & _ & _ & _ & _ & _ & Hst).
    rewrite Heq. now exists reply.
Qed.

End Handler.

End BullQueueFacts.

(** C3, amended, on a body with a media URL and no media type, and on a
    plain text message. *)
Lemma post_send_rejects_iff_witness :
  let e := BullQueue.mkEnv "3f2504e0-4f89-41d3-9a0c-0305e82c3301" (1, 2)%Z None None
             1700000000000%Z resolved resolved in
  let media := BullQueue.mkBody (JStr "+15551234567") JUndefined
                 (JStr "https://example.org/cat.png") JUndefined JUndefined in
  let text := BullQueue.mkBody (JStr "+15551234567") (JStr "hi") JUndefined JUndefined
                JUndefined in
  let st := BullQueue.mkStore [] [] in
  BullQueue.is_400 (fst (BullQueue.post_send (fun _ => true) e media st)) = true
  /\ exists reply,
       fst (BullQueue.post_send (fun _ => true) e text st) = BullQueue.status_200 reply
       /\ BullQueue.reply_jobId reply = "3f2504e0-4f89-41d3-9a0c-0305e82c3301"
       /\ BullQueue.reply_status reply = "queued".
Proof.
  intros e media text st. split.
  - apply (proj1 (BullQueueFacts.post_send_rejects_iff (fun _ => true) e media st)).
    right. right. split; reflexivity.
  - exact (proj1 (proj2 (BullQueueFacts.post_send_rejects_iff (fun _ => true) e text st))
             eq_refl eq_refl eq_refl eq_refl eq_refl).
Defined.

(** ** What [verifyWebhookSignature] accepts *)

Module VerifyFacts.
Import Webhook.

(** The hex digits of a byte hold no [s]: the prefix [sha256=] cannot start
    inside them. *)
Lemma replace_hex_of_byte (b : byte) (rest : string) :
  replace "sha256=" "" (hex_of_byte b +:+ rest)
  = hex_of_byte b +:+ replace "sha256=" "" rest.
Proof. destruct b; reflexivity. Qed.

Lemma append_assoc (a b c : string) : (a +:+ b) +:+ c = a +:+ (b +:+ c).
Proof.
  induction a as [|x a IH]; [reflexivity|].
  change (String x ((a +:+ b) +:+ c) = String x (a +:+ (b +:+ c))). now rewrite IH.
Qed.

Lemma append_nil_r (a : string) : a +:+ "" = a.
Proof.
  induction a as [|x a IH]; [reflexivity|].
  change (String x (a +:+ "") = String x a). now rewrite IH.
Qed.

Lemma replace_digest_hex (bs : Buffer) (rest : string) :
  replace "sha256=" "" (digest_hex bs +:+ rest)
  = digest_hex bs +:+ replace "sha256=" "" rest.
Proof.
  induction bs as [|b bs IH]; [reflexivity|].
  cbn [digest_hex].
  rewrite !append_assoc, replace_hex_of_byte, IH. reflexivity.
Qed.

(** Decoding goes through a digest and on with what follows it. *)
Lemma Buffer_from_hex_digest_app (bs : Buffer) (rest : string) :
  Buffer_from_hex (digest_hex bs +:+ rest) = (bs ++ Buffer_from_hex rest)%list.
Proof.
  induction bs as [|b bs IH]; [reflexivity|].
  cbn [digest_hex]. rewrite append_assoc, WebhookFacts.Buffer_from_hex_byte, IH.
  reflexivity.
Qed.

Section Signing.

Variable hmac_sha256 : string -> string -> Buffer.

(** On strings, verification compares the HMAC with what the signature
    decodes to. *)
Lemma verify_decodes (payload signature secret : string) :
  verifyWebhookSignature hmac_sha256 (JStr payload) (JStr signature) (JStr secret)
  = Return (bool_decide (hmac_sha256 secret payload
                         = Buffer_from_hex (replace "sha256=" "" signature))).
Proof.
  unfold verifyWebhookSignature, verifyWebhookSignature_try.
  cbn [createHmac_update_digest signature_replace bind].
  rewrite WebhookFacts.Buffer_from_hex_digest. unfold timingSafeEqual.
  destruct (Nat.eqb_spec (length (hmac_sha256 secret payload))
              (length (Buffer_from_hex (replace "sha256=" "" signature)))) as [E|E];
    cbn [try_catch]; [reflexivity|].
  rewrite bool_decide_eq_false_2; [reflexivity|]. intros H. apply E. now rewrite <- H.
Qed.

(** X1: for strings, [verifyWebhookSignature] returns [true] exactly when
    the signature, once its first [sha256=] is removed and the rest is
    decoded as hex up to the first pair of characters that is not two hex
    digits, gives the bytes of the HMAC-SHA256 of the payload under the
    secret; otherwise it returns [false]. *)
Theorem verifyWebhookSignature_decides (payload signature secret : string) :
  verifyWebhookSignature hmac_sha256 (JStr payload) (JStr signature) (JStr secret)
  = Return (bool_decide (Buffer_from_hex (replace "sha256=" "" signature)
                         = hmac_sha256 secret payload)).
Proof.
  rewrite verify_decodes. f_equal. apply bool_decide_ext. split; congruence.
Qed.

(** X2: the prefix is not needed: the bare hex digest of the HMAC is
    accepted as a signature. *)
Theorem bare_digest_is_accepted (payload secret : string) :
  verifyWebhookSignature hmac_sha256 (JStr payload)
    (JStr (digest_hex (hmac_sha256 secret payload))) (JStr secret)
  = Return true.
Proof.
  rewrite verify_decodes.
  rewrite <- (append_nil_r (digest_hex _)), replace_digest_hex.
  change (replace "sha256=" "" "") with "".
  rewrite append_nil_r, WebhookFacts.Buffer_from_hex_digest.
  now rewrite bool_decide_eq_true_2.
Qed.

(** X3: text after a valid signature is ignored as soon as it does not
    begin with two hex digits: the header value of the sender followed by
    [rest] is accepted exactly when [rest] decodes to no byte. *)
Theorem trailing_text_after_signature (payload secret rest : string) :
  verifyWebhookSignature hmac_sha256 (JStr payload)
    (JStr (signature_header hmac_sha256 secret payload +:+ rest)) (JStr secret)
  = Return (bool_decide (Buffer_from_hex rest = [])).
Proof.
  rewrite verify_decodes. unfold signature_header.
  rewrite append_assoc, (WebhookFacts.replace_prefix "sha256=" "" _).
  change ("" +:+ ?x) with x.
  rewrite Buffer_from_hex_digest_app. f_equal.
  apply bool_decide_ext. split.
  - intros H. rewrite <- (app_nil_r (hmac_sha256 secret payload)) in H at 1.
    now apply app_inv_head in H.
  - intros ->. now rewrite app_nil_r.
Qed.

End Signing.

End VerifyFacts.

(** ** [sendWebhook] and the quiet cases of [triggerWebhooks] *)

Module SendFacts.
Import Webhook.

Section Sending.

Variable hmac_sha256 : string -> string -> Buffer.
Variable Data : Type.
Variable World : Type.
Variable stringify : Envelope Data -> Completion (option string).
Variable fetch : Request -> World -> FetchResult * World.
Variable toISOString_now : World -> string.

(** X4: [sendWebhook] of [utils/webhook.js] never throws and issues one
    POST at most.  When [JSON.stringify] throws, or the payload is
    [undefined] and a non-empty secret asks for a signature, it returns
    [false] and nothing is sent.  Otherwise it issues one POST to the given
    URL, whose body is the payload and whose signature header is there
    exactly for a non-empty secret, and returns [true] when the response
    has a 2xx status and [false] otherwise (any other status, or a [fetch]
    that is rejected). *)
Theorem sendWebhook_outcome (u : string) (d : Envelope Data) (s : option string)
    (n : Net World) :
  sendWebhook hmac_sha256 Data World stringify fetch u d s n
  = match stringify d with
    | Throw _ => (Return false, n)
    | Return payload =>
        match signature_for hmac_sha256 s payload with
        | Throw _ => (Return false, n)
        | Return signature =>
            let request := mkRequest u signature payload in
            (Return (match fst (fetch request (world _ n)) with
                     | Response status => response_ok status
                     | NetworkFailure _ => false
                     end),
             mkNet _ (snd (fetch request (world _ n))) (posted _ n ++ [request])%list)
        end
    end.
Proof.
  unfold sendWebhook, sendWebhook_try.
  destruct (stringify d) as [payload|e]; [|reflexivity].
  destruct (signature_for hmac_sha256 s payload) as [signature|e]; [|reflexivity].
  cbn zeta.
  destruct (fetch _ (world _ n)) as [[status|e] w]; cbn [fst snd];
    [destruct (response_ok status)|]; reflexivity.
Qed.

(** X5: unless [WEBHOOK_ENABLED] is exactly [true], [triggerWebhooks]
    returns at once: no row is loaded and nothing is posted.  When the rows
    cannot be loaded (the call of [getWebhooks] throws, because the
    identifier is unbound or because the function is rejected) it also
    returns normally and nothing is posted.  This holds whatever the scope
    of the module binds. *)
Theorem triggerWebhooks_quiet (scope : Scope Data World) (enabled : option string)
    (message : Data) (n : Net World) :
  (enabled <> Some "true" ->
   triggerWebhooks_in Data World toISOString_now scope enabled message n
   = (Return tt, n))
  /\ (forall (e : Error) (w : World),
        enabled = Some "true" ->
        call_getWebhooks Data World scope (world _ n) = (Throw e, w) ->
        triggerWebhooks_in Data World toISOString_now scope enabled message n
        = (Return tt, mkNet _ w (posted _ n))).
Proof.
  unfold triggerWebhooks_in, triggerWebhooks_try. split.
  - intros He. now rewrite bool_decide_eq_false_2.
  - intros e w -> Hget. rewrite bool_decide_eq_true_2 by reflexivity. cbn [negb].
    now rewrite Hget.
Qed.

End Sending.

End SendFacts.

(** X5 with [WEBHOOK_ENABLED] unset, and with a database that is down, in a
    scope that binds both identifiers to the functions of [db.js] and
    [utils/webhook.js]. *)
Lemma triggerWebhooks_quiet_witness :
  let mac := fun k m : string => list_byte_of_string (k +:+ m) in
  let fetch := fun (r : Webhook.Request) (w : unit) => (Webhook.Response 200, w) in
  let down := fun w : unit =>
    (Throw (PlainError "database unavailable") : Completion (list Webhook.WebhookRow), w) in
  let scope :=
    Webhook.mkScope string unit (Some down)
      (Some (Webhook.sendWebhook mac string unit (fun _ => Return (Some "{}")) fetch)) in
  let n := Webhook.mkNet unit tt [] in
  Webhook.triggerWebhooks_in string unit (fun _ => "2024-01-01T00:00:00.000Z") scope
    None "hello" n = (Return tt, n)
  /\ Webhook.triggerWebhooks_in string unit (fun _ => "2024-01-01T00:00:00.000Z") scope
       (Some "true") "hello" n
     = (Return tt, n).
Proof.
  intros mac fetch down scope n. split.
  - apply (proj1 (SendFacts.triggerWebhooks_quiet string unit
                    (fun _ => "2024-01-01T00:00:00.000Z") scope None "hello" n)).
    discriminate.
  - exact (proj2 (SendFacts.triggerWebhooks_quiet string unit
                    (fun _ => "2024-01-01T00:00:00.000Z") scope (Some "true") "hello" n)
             (PlainError "database unavailable") tt eq_refl eq_refl).
Defined.

(** ** More on the BullMQ-backed queue *)

Module EnqueueFacts.
Import BullQueue.





(** X7: the worker rejects every job that [addMessageToQueue] enqueues.
    The job type is given to BullMQ as the name of the job, its data has
    no [jobType] property, and [processJob] reads the type from the data:
    it finds [undefined] and throws, whatever the type was. *)
Theorem enqueued_job_is_rejected (e : Env) (md : MessageData) (st : Store) :
  add_outcome e = resolved ->
  exists job,
    added (snd (addMessageToQueue e md st)) = (added st ++ [job])%list
    /\ name job = default_to (JStr "send_message") (jobType md)
    /\ processJob job = Throw (PlainError "Unknown job type").
Proof.
  intros Ha. unfold addMessageToQueue. rewrite Ha.
  eexists. split; [|split].
  - destruct (save_outcome e); reflexivity.
  - reflexivity.
  - reflexivity.
Qed.

Section Handler.

Variable validation_passes : Body -> bool.

(** X8: what [POST /send] leaves behind.  A 400 changes nothing.  A 200
    has given BullMQ one job and the database one row, both under the job
    id of the reply, the row with status [pending].  A 500 has saved no
    row; the job is nevertheless in BullMQ when it was the save that
    failed. *)
Theorem post_send_store (e : Env) (b : Body) (st : Store) :
  match post_send validation_passes e b st with
  | (status_400 _, st') => st' = st
  | (status_200 reply, st') =>
      exists job row,
        added st' = (added st ++ [job])%list
        /\ rows st' = (rows st ++ [row])%list
        /\ opt_jobId (opts job) = reply_jobId reply
        /\ row_jobId row = reply_jobId reply
        /\ row_status row = "pending"
  | (status_500 _, st') =>
      rows st' = rows st
      /\ match add_outcome e with
         | resolved =>
             exists job, added st' = (added st ++ [job])%list
                         /\ opt_jobId (opts job) = uuid e
         | rejected _ => added st' = added st
         end
  end.
Proof.
  unfold post_send.
  destruct (validation_passes b); cbn [negb]; [|reflexivity].
  destruct (negb (truthy (body_content b)) && negb (truthy (body_mediaUrl b)));
    [reflexivity|].
  destruct (truthy (body_mediaUrl b) && negb (truthy (body_mediaType b)));
    [reflexivity|].
  unfold addMessageToQueue.
  destruct (add_outcome e) as [|msg]; [|split; reflexivity].
  destruct (save_outcome e) as [|msg].
  - eexists _, _. repeat split.
  - split; [reflexivity|]. eexists. split; reflexivity.
Qed.

End Handler.

End EnqueueFacts.


(** X7 on a template message. *)
Lemma enqueued_job_is_rejected_witness :
  let e := BullQueue.mkEnv "3f2504e0-4f89-41d3-9a0c-0305e82c3301" (1, 2)%Z None None
             1700000000000%Z resolved resolved in
  let md := BullQueue.mkMessageData (JStr "+15551234567") (JStr "Template: welcome")
              JUndefined JUndefined (JStr "send_template") JUndefined in
  exists job,
    BullQueue.added (snd (BullQueue.addMessageToQueue e md (BullQueue.mkStore [] [])))
    = ([] ++ [job])%list
    /\ BullQueue.name job = JStr "send_template"
    /\ BullQueue.processJob job = Throw (PlainError "Unknown job type").
Proof.
  intros e md.
  exact (EnqueueFacts.enqueued_job_is_rejected e md (BullQueue.mkStore [] []) eq_refl).
Defined.

(** ** Message parsing, handlers and reconnection *)

Module PlaywrightFacts.
Import Playwright.

Section Parse.

Variable Date_toISOString : JsVal -> Completion string.
Variable uuidv4 : nat -> string.
Variable now : string.

(** X9: [parseMessageData] never throws, and a time stamp that is not a
    valid date costs the whole message: when [rawData] is [null] or
    [undefined], or [new Date(timestamp).toISOString()] throws, the result
    is the placeholder of the [catch] block, with an empty content, the
    chat [unknown] and the current time.  Otherwise the result carries the
    ISO string of the time stamp and the content, and its sender id is
    [me] for an own message and else the sender name (or [unknown]): the
    [senderId] of the raw data is never used. *)
Theorem parseMessageData_returns (rawData : option RawData) :
  exists m,
    parseMessageData Date_toISOString uuidv4 now rawData = Return m
    /\ match rawData with
       | None => m = fallback uuidv4 now 0
       | Some r =>
           match Date_toISOString (raw_timestamp r) with
           | Throw _ => m = fallback uuidv4 now (if truthy (raw_id r) then 0 else 1)
           | Return iso =>
               timestamp m = JStr iso
               /\ content m = or_else (raw_content r) (JStr "")
               /\ senderId m = (if truthy (raw_isFromMe r) then JStr "me"
                                else or_else (raw_senderName r) (JStr "unknown"))
           end
       end.
Proof.
  unfold parseMessageData, parseMessageData_try.
  destruct rawData as [r|]; cbn [try_catch uuid_calls].
  - destruct (Date_toISOString (raw_timestamp r)) as [iso|err]; cbn [bind try_catch];
      eexists; split; try reflexivity. repeat split.
  - eexists; split; reflexivity.
Qed.

End Parse.

(** *** Handlers *)

Lemma removeMessageHandler_count (h : nat) (hs : list nat) (x : nat) :
  ApiQueue.count_in (removeMessageHandler h hs) x
  = ApiQueue.count_in hs x
    - (if decide (x = h) then 1 else 0).
Proof.
  unfold removeMessageHandler.
  induction hs as [|y hs IH]; cbn [ApiQueue.findIndex].
  - cbn. lia.
  - destruct (Nat.eqb_spec h y) as [->|Hne].
    + change (delete 0 (y :: hs)) with hs. cbn [ApiQueue.count_in].
      destruct (decide (y = x)) as [->|Hx].
      * rewrite decide_True by reflexivity. lia.
      * rewrite decide_False by congruence. lia.
    + destruct (ApiQueue.findIndex (Nat.eqb h) hs) as [i|] eqn:Hi;
        cbn [fmap option_fmap option_map].
      * change (delete (S i) (y :: hs)) with (y :: delete i hs).
        cbn [ApiQueue.count_in]. rewrite IH.
        destruct (decide (y = x)) as [->|Hx], (decide (x = h)) as [->|Hh];
          try congruence; lia.
      * cbn [ApiQueue.count_in]. rewrite IH.
        destruct (decide (y = x)) as [->|Hx], (decide (x = h)) as [->|Hh];
          try congruence; lia.
Qed.

(** X10: [removeMessageHandler] takes away one registration of the
    handler, the oldest one, and nothing else: a handler added twice is
    still registered once after one removal, removing a handler that is
    not registered changes nothing, and the other handlers keep their
    places. *)
Theorem removeMessageHandler_removes_one (h : nat) (hs : list nat) :
  (forall x, ApiQueue.count_in (removeMessageHandler h hs) x
             = ApiQueue.count_in hs x - (if decide (x = h) then 1 else 0))
  /\ sublist (removeMessageHandler h hs) hs
  /\ (forall before after,
        hs = (before ++ h :: after)%list -> h ∉ before ->
        removeMessageHandler h hs = (before ++ after)%list).
Proof.
  split; [apply removeMessageHandler_count|]. split.
  - unfold removeMessageHandler.
    destruct (ApiQueue.findIndex (Nat.eqb h) hs); [apply sublist_delete | reflexivity].
  - intros before after -> Hnot. unfold removeMessageHandler.
    induction before as [|y before IH]; cbn [app ApiQueue.findIndex].
    + now rewrite Nat.eqb_refl.
    + apply not_elem_of_cons in Hnot as [Hy Hb].
      destruct (Nat.eqb_spec h y) as [->|_]; [congruence|].
      specialize (IH Hb).
      destruct (ApiQueue.findIndex (Nat.eqb h) (before ++ h :: after)) as [i|];
        cbn [fmap option_fmap option_map delete].
      * cbn. now rewrite IH.
      * cbn. now rewrite IH.
Qed.

(** Registering a handler and removing it again gives back the
    handlers that were there, up to their order; in the same order when
    the handler was not registered before. *)
Theorem remove_after_add (h : nat) (hs : list nat) :
  removeMessageHandler h (addMessageHandler h hs) ≡ₚ hs
  /\ (h ∉ hs -> removeMessageHandler h (addMessageHandler h hs) = hs).
Proof.
  unfold addMessageHandler. split.
  - unfold removeMessageHandler.
    destruct (ApiQueue.findIndex (Nat.eqb h) (hs ++ [h])) as [i|] eqn:Hi.
    + assert (Hl : (hs ++ [h])%list !! i = Some h).
      { revert i Hi. generalize (hs ++ [h])%list. intros l.
        induction l as [|y l IH]; intros i; cbn [ApiQueue.findIndex]; [discriminate|].
        destruct (Nat.eqb_spec h y) as [->|_].
        - now intros [= <-].
        - destruct (ApiQueue.findIndex (Nat.eqb h) l) as [k|]; [|discriminate].
          intros [= <-]. cbn. now apply IH. }
      apply (Permutation_cons_inv (a := h)).
      rewrite <- (delete_Permutation _ _ _ Hl).
      now rewrite Permutation_app_comm.
    + exfalso. revert Hi. induction hs as [|y hs IH]; cbn [app ApiQueue.findIndex].
      * now rewrite Nat.eqb_refl.
      * destruct (Nat.eqb h y); [discriminate|].
        destruct (ApiQueue.findIndex (Nat.eqb h) (hs ++ [h])); [discriminate|].
        intros _. now apply IH.
  - intros Hnot. unfold removeMessageHandler.
    induction hs as [|y hs IH]; cbn [app ApiQueue.findIndex].
    + now rewrite Nat.eqb_refl.
    + apply not_elem_of_cons in Hnot as [Hy Hb].
      destruct (Nat.eqb_spec h y) as [->|_]; [congruence|].
      specialize (IH Hb).
      destruct (ApiQueue.findIndex (Nat.eqb h) (hs ++ [h])) as [i|];
        cbn [fmap option_fmap option_map delete]; cbn; now rewrite IH.
Qed.

(** *** Reconnection *)

Lemma backoffTime_ge (n : nat) : 1 <= n -> (2000 <= backoffTime n <= 30000)%Z.
Proof.
  intros Hn. unfold backoffTime.
  assert (2 ^ 1 <= 2 ^ Z.of_nat n)%Z by (apply Z.pow_le_mono_r; lia).
  change (2 ^ 1)%Z with 2%Z in *. lia.
Qed.

Lemma backoffTime_capped (n : nat) : 5 <= n -> backoffTime n = 30000%Z.
Proof.
  intros Hn. unfold backoffTime.
  assert (2 ^ 5 <= 2 ^ Z.of_nat n)%Z by (apply Z.pow_le_mono_r; lia).
  change (2 ^ 5)%Z with 32%Z in *. lia.
Qed.

(** X11: every wait before a reconnection lies between 2 and 30 seconds,
    and since nothing ever resets the attempt counter, once four
    disconnections have been handled every later one waits the full 30
    seconds. *)
Theorem reconnection_waits (outcomes : list Outcome) (reconnectAttempts : nat) (w : Z) :
  Some w ∈ waits outcomes reconnectAttempts ->
  (2000 <= w <= 30000)%Z /\ (4 <= reconnectAttempts -> w = 30000%Z).
Proof.
  revert reconnectAttempts.
  induction outcomes as [|o outcomes IH]; intros n; cbn [waits].
  - intros H. inversion H.
  - destruct o as [|msg]; cbn [handleDisconnection]; intros H;
      apply elem_of_cons in H as [H|H].
    + injection H as ->. split; [apply backoffTime_ge; lia|].
      intros Hn. apply backoffTime_capped. lia.
    + destruct (IH _ H) as [Hb Hc]. split; [exact Hb|]. intros Hn. apply Hc. lia.
    + discriminate.
    + exact (IH _ H).
Qed.

(** The wait doubles from 2 seconds up to the cap: it is
    [1000 * 2^n] ms for the first four attempts and never goes down. *)
Theorem backoffTime_doubles (n : nat) :
  (1 <= n <= 4 -> backoffTime n = (1000 * 2 ^ Z.of_nat n)%Z)
  /\ (backoffTime n <= backoffTime (S n))%Z.
Proof.
  split.
  - intros Hn. unfold backoffTime.
    assert (2 ^ Z.of_nat n <= 2 ^ 4)%Z by (apply Z.pow_le_mono_r; lia).
    change (2 ^ 4)%Z with 16%Z in *. lia.
  - unfold backoffTime.
    assert (2 ^ Z.of_nat n <= 2 ^ Z.of_nat (S n))%Z by (apply Z.pow_le_mono_r; lia).
    lia.
Qed.

End PlaywrightFacts.

(** X11 on three disconnections of which the second could not close the
    browser. *)
Lemma reconnection_waits_witness :
  Some 4000%Z ∈ Playwright.waits [resolved; rejected "browser has been closed"; resolved] 0
  /\ (2000 <= 4000 <= 30000)%Z.
Proof.
  assert (H : Some 4000%Z
              ∈ Playwright.waits [resolved; rejected "browser has been closed"; resolved] 0).
  { cbn. do 2 apply elem_of_cons, or_intror. apply elem_of_cons. now left. }
  split; [exact H|].
  exact (proj1 (PlaywrightFacts.reconnection_waits _ _ _ H)).
Defined.

(** ** Input validation utilities *)

Module ValidationFacts.
Import Validation.

Lemma append_cons (c : ascii) (a b : string) : String c a +:+ b = String c (a +:+ b).
Proof. reflexivity. Qed.

Lemma append_nil (b : string) : "" +:+ b = b.
Proof. reflexivity. Qed.

Lemma occurrences_app (c : ascii) (a b : string) :
  occurrences c (a +:+ b) = occurrences c a + occurrences c b.
Proof.
  induction a as [|x a IH]; [reflexivity|].
  rewrite append_cons. cbn [occurrences]. rewrite IH. lia.
Qed.

Lemma length_app (a b : string) :
  String.length (a +:+ b) = String.length a + String.length b.
Proof.
  induction a as [|x a IH]; [reflexivity|].
  rewrite append_cons. cbn [String.length]. now rewrite IH.
Qed.

(** What one pass does to the number of occurrences of a character. *)
Lemma occurrences_replace_all (d c : ascii) (rep s : string) :
  occurrences d (replace_all c rep s)
  = (if Ascii.eqb d c then 0 else occurrences d s)
    + occurrences c s * occurrences d rep.
Proof.
  induction s as [|x s IH]; cbn [replace_all occurrences].
  - now destruct (Ascii.eqb d c).
  - destruct (Ascii.eqb_spec x c) as [->|Hxc].
    + rewrite occurrences_app, IH.
      destruct (Ascii.eqb_spec c d) as [->|Hcd].
      * rewrite Ascii.eqb_refl. lia.
      * destruct (Ascii.eqb_spec d c); [congruence | lia].
    + cbn [occurrences]. rewrite IH.
      destruct (Ascii.eqb_spec x d) as [->|Hxd].
      * destruct (Ascii.eqb_spec d c); [congruence | lia].
      * destruct (Ascii.eqb_spec d c); lia.
Qed.

Lemma length_replace_all (c : ascii) (rep s : string) :
  String.length (replace_all c rep s) + occurrences c s
  = String.length s + occurrences c s * String.length rep.
Proof.
  induction s as [|x s IH]; cbn [replace_all occurrences String.length]; [reflexivity|].
  destruct (Ascii.eqb_spec x c) as [->|Hxc].
  - rewrite length_app. lia.
  - cbn [String.length]. lia.
Qed.

Lemma replace_all_absent (c : ascii) (rep s : string) :
  occurrences c s = 0 -> replace_all c rep s = s.
Proof.
  induction s as [|x s IH]; cbn [replace_all occurrences]; [reflexivity|].
  destruct (Ascii.eqb x c); [discriminate|]. cbn. intros H. now rewrite IH.
Qed.

Ltac count_passes :=
  unfold sanitizeHtml_string; rewrite !occurrences_replace_all; cbn; lia.

(** The number of ampersands after sanitizing: one for every character
    that was replaced. *)
Lemma occurrences_amp_sanitized (s : string) :
  occurrences "&" (sanitizeHtml_string s)
  = occurrences "&" s + occurrences "<" s + occurrences ">" s
    + occurrences dquote s + occurrences "'" s + occurrences "/" s.
Proof. count_passes. Qed.

Lemma occurrences_sanitized (s : string) :
  Forall (fun c => occurrences c (sanitizeHtml_string s) = 0)
         ["<"; ">"; dquote; "'"; "/"]%char.
Proof. repeat constructor; count_passes. Qed.

Lemma length_sanitized (s : string) :
  String.length (sanitizeHtml_string s)
  = String.length s + 4 * occurrences "&" s + 3 * occurrences "<" s
    + 3 * occurrences ">" s + 5 * occurrences dquote s
    + 5 * occurrences "'" s + 5 * occurrences "/" s.
Proof.
  unfold sanitizeHtml_string.
  repeat match goal with
         | |- context [String.length (replace_all ?c ?rep ?s)] =>
             generalize (length_replace_all c rep s);
             generalize (String.length (replace_all c rep s)); intros ?
         end.
  rewrite !occurrences_replace_all. cbn. lia.
Qed.

Lemma fixed_of_clean (s : string) :
  Forall (fun c => occurrences c s = 0) escaped -> sanitizeHtml_string s = s.
Proof.
  unfold escaped. rewrite !Forall_cons. intros (Ha & Hl & Hg & Hq & Hp & Hs & _).
  unfold sanitizeHtml_string.
  rewrite (replace_all_absent "&" _ s Ha), (replace_all_absent "<" _ s Hl),
    (replace_all_absent ">" _ s Hg), (replace_all_absent dquote _ s Hq),
    (replace_all_absent "'" _ s Hp), (replace_all_absent "/" _ s Hs).
  reflexivity.
Qed.

Lemma clean_of_fixed (s : string) :
  String.length (sanitizeHtml_string s) = String.length s ->
  Forall (fun c => occurrences c s = 0) escaped.
Proof.
  rewrite length_sanitized. intros H. unfold escaped.
  repeat constructor; lia.
Qed.

(** X12: the output of [sanitizeHtml] on a string contains none of the
    characters [<], [>], the double quote, the single quote and [/]; what
    is not a string is returned unchanged. *)
Theorem sanitizeHtml_output (input : JsVal) :
  match input with
  | JStr s =>
      exists out, sanitizeHtml input = JStr out
        /\ Forall (fun c => occurrences c out = 0) ["<"; ">"; dquote; "'"; "/"]%char
  | _ => sanitizeHtml input = input
  end.
Proof.
  destruct input as [| | | |s|]; try reflexivity.
  eexists. split; [reflexivity | apply occurrences_sanitized].
Qed.

(** X13: [sanitizeHtml] leaves a string as it is exactly when the string
    has none of the six characters it replaces; in general the output is
    longer by 4 for each ampersand, 3 for each [<] and [>], and 5 for each
    quote and slash of the input. *)
Theorem sanitizeHtml_fixed_iff (s : string) :
  (sanitizeHtml_string s = s <-> Forall (fun c => occurrences c s = 0) escaped)
  /\ String.length (sanitizeHtml_string s)
     = String.length s + 4 * occurrences "&" s + 3 * occurrences "<" s
       + 3 * occurrences ">" s + 5 * occurrences dquote s
       + 5 * occurrences "'" s + 5 * occurrences "/" s.
Proof.
  split; [|apply length_sanitized]. split.
  - intros H. apply clean_of_fixed. now rewrite H.
  - apply fixed_of_clean.
Qed.

(** X14: sanitizing twice is not sanitizing once: the second pass escapes
    the ampersands the first one has written, so the two results agree
    only for a string that had nothing to escape. *)
Theorem sanitizeHtml_twice (s : string) :
  sanitizeHtml_string (sanitizeHtml_string s) = sanitizeHtml_string s
  <-> sanitizeHtml_string s = s.
Proof.
  split.
  - intros H. apply fixed_of_clean.
    assert (Hc := clean_of_fixed (sanitizeHtml_string s) (f_equal String.length H)).
    unfold escaped in Hc. rewrite Forall_cons in Hc. destruct Hc as [Ha _].
    rewrite occurrences_amp_sanitized in Ha.
    unfold escaped. repeat constructor; lia.
  - intros H. now rewrite !H.
Qed.

(** *** Phone numbers *)

Lemma strip_separators_app (a b : string) :
  strip_separators (a +:+ b) = strip_separators a +:+ strip_separators b.
Proof.
  induction a as [|x a IH]; [reflexivity|].
  rewrite append_cons. cbn [strip_separators].
  destruct (is_separator x); [exact IH|]. now rewrite append_cons, IH.
Qed.

(** X15: white space, hyphens and parentheses never change the verdict of
    [isValidPhoneNumber], wherever they stand in the number. *)
Theorem isValidPhoneNumber_ignores_separators (a b : string) (c : ascii) :
  is_separator c = true ->
  isValidPhoneNumber (JStr (a +:+ String c b)) = isValidPhoneNumber (JStr (a +:+ b)).
Proof.
  intros Hc. unfold isValidPhoneNumber.
  rewrite !strip_separators_app. cbn [strip_separators]. now rewrite Hc.
Qed.

Lemma count_digits_strip (s : string) :
  count_digits (strip_separators s) = count_digits s.
Proof.
  induction s as [|x s IH]; [reflexivity|].
  cbn [strip_separators count_digits].
  destruct (is_separator x) eqn:Hs.
  - rewrite IH. destruct (is_digit x) eqn:Hd; [|reflexivity].
    exfalso. revert Hs Hd. unfold is_separator, is_whitespace, is_digit.
    destruct x as [[] [] [] [] [] [] [] []]; cbn; discriminate.
  - cbn [count_digits]. now rewrite IH.
Qed.

Lemma count_digits_all (s : string) :
  all_digits s = true -> count_digits s = String.length s.
Proof.
  induction s as [|x s IH]; [reflexivity|].
  cbn [all_digits count_digits String.length].
  destruct (is_digit x); [|discriminate]. cbn. intros H. now rewrite IH.
Qed.

Lemma strip_separators_digits (s : string) :
  all_digits s = true -> strip_separators s = s.
Proof.
  induction s as [|x s IH]; [reflexivity|].
  cbn [all_digits strip_separators]. rewrite andb_true_iff. intros [Hd Hs].
  rewrite (IH Hs).
  destruct (is_separator x) eqn:Hx; [|reflexivity].
  exfalso. revert Hx Hd. unfold is_separator, is_whitespace, is_digit.
  destruct x as [[] [] [] [] [] [] [] []]; cbn; discriminate.
Qed.

Lemma phoneRegex_test_digits (s : string) :
  all_digits s = true -> 2 <= String.length s <= 15 ->
  String.get 0 s <> Some "0"%char ->
  phoneRegex_test s = true /\ phoneRegex_test (String "+" s) = true.
Proof.
  destruct s as [|d ds]; cbn [String.length]; [lia|].
  cbn [all_digits String.get]. rewrite andb_true_iff. intros [Hd Hds] Hlen H0.
  assert (Hcore : is_digit d && negb (Ascii.eqb d "0") && all_digits ds
                  && Nat.leb 1 (String.length ds) && Nat.leb (String.length ds) 14
                  = true).
  { rewrite !andb_true_iff. repeat split; try assumption.
    - destruct (Ascii.eqb_spec d "0") as [->|]; [congruence | reflexivity].
    - apply Nat.leb_le. lia.
    - apply Nat.leb_le. lia. }
  split; [|exact Hcore].
  unfold phoneRegex_test.
  destruct (Ascii.eqb_spec d "+") as [->|_]; [discriminate Hd | exact Hcore].
Qed.

(** X16: a string that [isValidPhoneNumber] accepts has between 2 and 15
    digits.  Conversely every string of 2 to 15 digits that does not begin
    with 0 is accepted, with or without a [+] in front: three digits are
    enough.  For what is not a string the function throws. *)
Theorem isValidPhoneNumber_digits (phone : JsVal) :
  match phone with
  | JStr s =>
      exists b, isValidPhoneNumber phone = Return b
        /\ (b = true -> 2 <= count_digits s <= 15)
        /\ (all_digits s = true -> 2 <= String.length s <= 15 ->
            String.get 0 s <> Some "0"%char ->
            b = true /\ isValidPhoneNumber (JStr (String "+" s)) = Return true)
  | _ => exists e, isValidPhoneNumber phone = Throw e
  end.
Proof.
  destruct phone as [| | | |s|]; try (eexists; reflexivity).
  eexists. split; [reflexivity|]. split.
  - rewrite <- (count_digits_strip s).
    generalize (strip_separators s). clear s. intros s. unfold phoneRegex_test.
    assert (Hcore : forall r,
               match r with
               | String d ds =>
                   is_digit d && negb (Ascii.eqb d "0") && all_digits ds
                   && Nat.leb 1 (String.length ds) && Nat.leb (String.length ds) 14
               | EmptyString => false
               end = true ->
               2 <= count_digits r <= 15).
    { intros [|d ds]; [discriminate|].
      rewrite !andb_true_iff. intros ((((Hd & _) & Hall) & H1) & H14).
      apply Nat.leb_le in H1, H14. cbn [count_digits]. rewrite Hd.
      rewrite (count_digits_all ds Hall). lia. }
    destruct s as [|c s']; [discriminate|].
    destruct (Ascii.eqb_spec c "+") as [->|Hc].
    + intros H. apply Hcore in H.
      change (count_digits (String "+" s')) with (count_digits s'). exact H.
    + intros H. exact (Hcore (String c s') H).
  - intros Hall Hlen H0.
    destruct (phoneRegex_test_digits s Hall Hlen H0) as [H1 H2].
    unfold isValidPhoneNumber.
    change (strip_separators (String "+" s)) with (String "+" (strip_separators s)).
    rewrite (strip_separators_digits s Hall). split; [exact H1 | now rewrite H2].
Qed.

(** *** Message content *)

Lemma trimStart_visible (s : string) : has_visible (trimStart s) = has_visible s.
Proof.
  induction s as [|x s IH]; [reflexivity|].
  cbn [trimStart has_visible]. destruct (is_whitespace x) eqn:Hx; [exact IH|].
  cbn [has_visible]. now rewrite Hx.
Qed.

Lemma trimEnd_empty (s : string) :
  Nat.ltb 0 (String.length (trimEnd s)) = has_visible s.
Proof.
  induction s as [|x s IH]; [reflexivity|].
  cbn [trimEnd has_visible].
  destruct (trimEnd s) as [|y t] eqn:Ht.
  - cbn in IH. rewrite <- IH. destruct (is_whitespace x); reflexivity.
  - cbn in IH. rewrite <- IH. cbn. now rewrite orb_true_r.
Qed.

(** X17: [isValidMessageContent] accepts exactly the strings of at most
    4096 characters that have a character other than white space: a
    message of blanks only is refused, and so is everything that is not a
    string. *)
Theorem isValidMessageContent_iff (content : JsVal) :
  isValidMessageContent content = true
  <-> exists s, content = JStr s /\ has_visible s = true /\ String.length s <= 4096.
Proof.
  unfold isValidMessageContent, trim. split.
  - destruct content as [| | | |s|]; try discriminate.
    rewrite andb_true_iff, trimEnd_empty, trimStart_visible.
    intros [Hv Hl]. apply Nat.leb_le in Hl. now exists s.
  - intros (s & -> & Hv & Hl).
    rewrite andb_true_iff, trimEnd_empty, trimStart_visible.
    split; [exact Hv | now apply Nat.leb_le].
Qed.

(** *** Rate limiting *)

Lemma serve_in_window (windowMs maxRequests : Z) (ts : list Z) (i : option string)
    (table : gmap string RateData) (k R : Z) :
  table !! key_of (mkReq i (Some table)) = Some (mkRateData k R) ->
  Forall (fun t => (t <= R)%Z) ts ->
  length (List.filter is_next
            (fst (serve windowMs maxRequests ts (mkReq i (Some table)))))
  = Nat.min (length ts) (Z.to_nat (maxRequests - k)).
Proof.
  revert table k.
  induction ts as [|t ts IH]; intros table k Hk Hts; [reflexivity|].
  apply Forall_cons in Hts as [Ht Hts].
  cbn [serve]. unfold validateRateLimit.
  cbn [rateLimitData default ip] in *.
  change (key_of (mkReq i (Some table))) with (key_of (mkReq i None)) in *.
  set (key := key_of (mkReq i None)) in *.
  change (key_of (mkReq i (Some table))) with key.
  unfold id. rewrite Hk. cbn [resetTime requests].
  destruct (Z.ltb_spec R t) as [Hlt|_]; [lia|].
  destruct (Z.leb_spec maxRequests k) as [Hfull|Hroom].
  - specialize (IH table k Hk Hts).
    destruct (serve windowMs maxRequests ts (mkReq i (Some table))) as [vs req'].
    cbn [fst List.filter is_next] in *. rewrite IH. lia.
  - specialize (IH (<[key := mkRateData (k + 1) R]> table) (k + 1)%Z).
    destruct (serve windowMs maxRequests ts
                (mkReq i (Some (<[key := mkRateData (k + 1) R]> table)))) as [vs req'].
    cbn [fst List.filter is_next length] in *.
    rewrite IH; [lia | apply lookup_insert_eq | exact Hts].
Qed.

(** Under a name inherited from [Object.prototype] that has no stored
    entry, every request passes and nothing is stored. *)
Lemma serve_inherited (windowMs maxRequests : Z) (ts : list Z) (i : option string)
    (table : gmap string RateData) :
  table !! key_of (mkReq i (Some table)) = None ->
  inherited (key_of (mkReq i (Some table))) = true ->
  serve windowMs maxRequests ts (mkReq i (Some table))
  = (List.map (fun _ => next) ts, mkReq i (Some table)).
Proof.
  intros Hnone Hin. induction ts as [|t ts IH]; [reflexivity|].
  cbn [serve]. unfold validateRateLimit.
  cbn [rateLimitData default ip] in *. unfold id.
  rewrite Hnone, Hin, IH. reflexivity.
Qed.

(** X18: on a request object that keeps its [rateLimitData] and has no
    entry yet for the address of the request.  When the address is not a
    name inherited from [Object.prototype], the requests of one window that
    are let through are [maxRequests] at most, but one at least: the
    request that opens a window is never counted against the limit, so it
    passes even with a limit of 0; [times] are the clock readings of the
    requests that follow the first one, none after the end of the window.
    When the address is such a name ([constructor], [toString], ...), every
    request is let through, whatever the limit and the clock readings. *)
Theorem validateRateLimit_window (windowMs maxRequests : Z) (req : Req)
    (first : Z) (times : list Z) :
  default ∅ (rateLimitData req) !! key_of req = None ->
  (inherited (key_of req) = false ->
   Forall (fun t => (t <= first + windowMs)%Z) times ->
   length (List.filter is_next (fst (serve windowMs maxRequests (first :: times) req)))
   = Nat.min (S (length times)) (Nat.max 1 (Z.to_nat maxRequests)))
  /\ (inherited (key_of req) = true ->
      fst (serve windowMs maxRequests (first :: times) req)
      = List.map (fun _ => next) (first :: times)).
Proof.
  intros Hnew. split.
  - intros Hown Hts. cbn [serve]. unfold validateRateLimit at 1. rewrite Hnew, Hown.
    set (table := <[key_of req := mkRateData 1 (first + windowMs)]>
                    (default ∅ (rateLimitData req))).
    pose proof (serve_in_window windowMs maxRequests times (ip req) table 1
                  (first + windowMs)) as H.
    destruct (serve windowMs maxRequests times (mkReq (ip req) (Some table))) as [vs req'].
    cbn [fst List.filter is_next length] in *.
    rewrite H; [lia| |exact Hts].
    change (key_of (mkReq (ip req) (Some table))) with (key_of req).
    apply lookup_insert_eq.
  - intros Hin. cbn [serve]. unfold validateRateLimit at 1. rewrite Hnew, Hin.
    rewrite (serve_inherited windowMs maxRequests times (ip req)
               (default ∅ (rateLimitData req)) Hnew Hin).
    reflexivity.
Qed.

End ValidationFacts.

(** X15 on a number written with a blank. *)
Lemma isValidPhoneNumber_ignores_separators_witness :
  Validation.is_separator " " = true
  /\ Validation.isValidPhoneNumber (JStr "+60 123456789") = Return true.
Proof.
  split; [reflexivity|].
  exact (eq_trans
           (ValidationFacts.isValidPhoneNumber_ignores_separators "+60" "123456789" " "
              eq_refl)
           eq_refl).
Defined.

(** X18: five requests in one window under a limit of three, from an
    address and under the name [constructor]. *)
Lemma validateRateLimit_window_witness :
  length (List.filter Validation.is_next
            (fst (Validation.serve 60000 3 [1000; 1001; 1002; 1003; 61000]%Z
                    (Validation.mkReq (Some "10.0.0.7") None))))
  = 3
  /\ fst (Validation.serve 60000 3 [1000; 1001; 1002; 1003; 61000]%Z
            (Validation.mkReq (Some "constructor") None))
     = [Validation.next; Validation.next; Validation.next; Validation.next;
        Validation.next].
Proof.
  split.
  - rewrite (proj1 (ValidationFacts.validateRateLimit_window 60000 3
                      (Validation.mkReq (Some "10.0.0.7") None) 1000
                      [1001; 1002; 1003; 61000]%Z eq_refl)).
    + reflexivity.
    + reflexivity.
    + repeat constructor; lia.
  - exact (proj2 (ValidationFacts.validateRateLimit_window 60000 3
                    (Validation.mkReq (Some "constructor") None) 1000
                    [1001; 1002; 1003; 61000]%Z eq_refl) eq_refl).
Defined.

(** ** The in-memory store *)

Module ApiDbFacts.
Import ApiDb.

Lemma findIndex_first {A} (p : A -> bool) (before after : list A) (x : A) :
  Forall (fun y => p y = false) before -> p x = true ->
  ApiQueue.findIndex p (before ++ x :: after) = Some (length before).
Proof.
  intros Hb Hx. induction Hb as [|y before Hy Hb IH]; cbn.
  - now rewrite Hx.
  - now rewrite Hy, IH.
Qed.

Lemma updateQueueJob_unknown (now : Z) (jobId : string) (updates : gmap string JsVal)
    (t : list (gmap string JsVal)) :
  Forall (fun row => prop_is "jobId" jobId row = false) t ->
  updateQueueJob now jobId updates t = (false, t).
Proof.
  intros H. unfold updateQueueJob.
  now rewrite (proj2 (ApiQueueFacts.findIndex_None _ _) H).
Qed.

Lemma updateQueueJob_first (now : Z) (jobId : string) (updates : gmap string JsVal)
    (before after : list (gmap string JsVal)) (row : gmap string JsVal) :
  Forall (fun r => prop_is "jobId" jobId r = false) before ->
  prop_is "jobId" jobId row = true ->
  updateQueueJob now jobId updates (before ++ row :: after)
  = (true, (before ++ <["updated_at" := JNum now]> (updates ∪ row) :: after)%list).
Proof.
  intros Hb Hrow. unfold updateQueueJob.
  rewrite (findIndex_first _ before after row Hb Hrow). f_equal.
  rewrite alter_app_r_alt by lia. now rewrite Nat.sub_diag.
Qed.

(** X19: [updateQueueJob] changes one row at most, the first one whose
    [jobId] is the given one, and never the number of rows: it returns
    [false] and leaves the table alone when no row has that [jobId], and
    otherwise returns [true] after merging the updates and a new
    [updated_at] into that first row; a later row with the same [jobId]
    stays as it is. *)
Theorem updateQueueJob_one_row (now : Z) (jobId : string) (updates : gmap string JsVal)
    (t : list (gmap string JsVal)) :
  (Forall (fun row => prop_is "jobId" jobId row = false) t ->
   updateQueueJob now jobId updates t = (false, t))
  /\ (forall before row after,
        t = (before ++ row :: after)%list ->
        Forall (fun r => prop_is "jobId" jobId r = false) before ->
        prop_is "jobId" jobId row = true ->
        updateQueueJob now jobId updates t
        = (true, (before ++ <["updated_at" := JNum now]> (updates ∪ row) :: after)%list))
  /\ length (snd (updateQueueJob now jobId updates t)) = length t.
Proof.
  split; [apply updateQueueJob_unknown|]. split.
  - intros before row after ->. apply updateQueueJob_first.
  - unfold updateQueueJob. destruct (ApiQueue.findIndex _ t); cbn [snd];
      [apply length_alter | reflexivity].
Qed.

Lemma prop_insert_ne (o : gmap string JsVal) (k k' : string) (v : JsVal) :
  k <> k' -> BullQueue.prop (<[k := v]> o) k' = BullQueue.prop o k'.
Proof. intros H. unfold BullQueue.prop. now rewrite lookup_insert_ne. Qed.

Lemma prop_union_l (a b : gmap string JsVal) (k : string) (v : JsVal) :
  a !! k = Some v -> BullQueue.prop (a ∪ b) k = v.
Proof.
  intros H. unfold BullQueue.prop. now rewrite (lookup_union_Some_l a b k v H).
Qed.

Lemma prop_union_r (a b : gmap string JsVal) (k : string) :
  a !! k = None -> BullQueue.prop (a ∪ b) k = BullQueue.prop b k.
Proof. intros H. unfold BullQueue.prop. now rewrite lookup_union_r. Qed.

(** X20: a job that was saved can be updated by its [jobId], and what is
    read back is what was written last: after [saveQueueJob] of data with
    a [jobId] that no row has yet, [updateQueueJob] with that [jobId]
    returns [true]; the row then has the updated value for each property
    of the updates, the value it was saved with for every other property
    (but [updated_at], which is the time of the update), and the rows
    saved before are untouched. *)
Theorem update_after_save (created updated now : Z) (jobId : string)
    (jobData updates : gmap string JsVal) (t : list (gmap string JsVal)) :
  jobData !! "jobId" = Some (JStr jobId) ->
  Forall (fun row => prop_is "jobId" jobId row = false) t ->
  exists saved row,
    snd (saveQueueJob created updated jobData t) = (t ++ [saved])%list
    /\ updateQueueJob now jobId updates (t ++ [saved]) = (true, (t ++ [row])%list)
    /\ BullQueue.prop row "updated_at" = JNum now
    /\ (forall k v, k <> "updated_at" -> updates !! k = Some v -> BullQueue.prop row k = v)
    /\ (forall k, k <> "updated_at" -> updates !! k = None ->
                  BullQueue.prop row k = BullQueue.prop saved k)
    /\ (forall k v, k <> "updated_at" -> k <> "created_at" -> jobData !! k = Some v ->
                    BullQueue.prop saved k = v).
Proof.
  intros Hid Hnew. unfold saveQueueJob. cbn [snd].
  eexists _, _. split; [reflexivity|]. split; [|split; [|split; [|split]]].
  - apply (updateQueueJob_first now jobId updates t []); [exact Hnew|].
    unfold prop_is. rewrite !prop_insert_ne by discriminate.
    rewrite (prop_union_l _ _ _ _ Hid). apply String.eqb_refl.
  - unfold BullQueue.prop. now rewrite lookup_insert_eq.
  - intros k v Hk Hv. rewrite prop_insert_ne by congruence.
    now apply prop_union_l.
  - intros k Hk Hv. rewrite prop_insert_ne by congruence.
    now apply prop_union_r.
  - intros k v Hu Hc Hv. rewrite !prop_insert_ne by congruence.
    now apply prop_union_l.
Qed.

(** X21: the row ids follow the places.  As long as neither the saved
    data nor the updates have an [id] property of their own, the row in
    place [k] has the id [k + 1], and [saveQueueJob] returns the number of
    rows there are after it. *)
Theorem ids_stay_in_order (t : list (gmap string JsVal)) :
  ids_in_order t ->
  (forall created updated jobData,
     jobData !! "id" = None ->
     fst (saveQueueJob created updated jobData t) = JNum (Z.of_nat (length t) + 1)
     /\ ids_in_order (snd (saveQueueJob created updated jobData t)))
  /\ (forall now jobId updates,
        updates !! "id" = None ->
        ids_in_order (snd (updateQueueJob now jobId updates t))).
Proof.
  intros Ht. split.
  - intros created updated jobData Hid. unfold saveQueueJob. cbn [fst snd].
    assert (Hnew : BullQueue.prop
                     (<["updated_at" := JNum updated]>
                        (<["created_at" := JNum created]>
                           (jobData ∪ {["id" := JNum (Z.of_nat (length t) + 1)]}))) "id"
                   = JNum (Z.of_nat (length t) + 1)).
    { rewrite !prop_insert_ne by discriminate. rewrite prop_union_r by exact Hid.
      unfold BullQueue.prop. now rewrite lookup_singleton_eq. }
    split; [exact Hnew|].
    intros k row Hk. apply lookup_app_Some in Hk as [Hk|[Hlen Hk]].
    + now apply Ht.
    + apply list_lookup_singleton_Some in Hk as [Hz <-].
      replace k with (length t) by lia. exact Hnew.
  - intros now jobId updates Hid. unfold updateQueueJob.
    destruct (ApiQueue.findIndex _ t) as [i|]; cbn [snd]; [|exact Ht].
    intros k row Hk. destruct (decide (i = k)) as [->|Hne].
    + rewrite list_lookup_alter_eq in Hk.
      destruct (t !! k) as [old|] eqn:Hold; [|discriminate].
      injection Hk as <-. rewrite prop_insert_ne by discriminate.
      rewrite prop_union_r by exact Hid. now apply Ht.
    + rewrite list_lookup_alter_ne in Hk by exact Hne. now apply Ht.
Qed.

(** *** Pages *)

Lemma slice_from (A : Type) (l : list A) (start len : Z) :
  (0 <= start)%Z -> (0 <= len)%Z ->
  slice l start (start + len) = take (Z.to_nat len) (drop (Z.to_nat start) l).
Proof.
  intros Hs Hl. unfold slice, slice_index.
  destruct (Z.ltb_spec start 0) as [|_]; [lia|].
  destruct (Z.ltb_spec (start + len) 0) as [|_]; [lia|].
  destruct (decide (Z.of_nat (length l) <= start)%Z) as [Hout|Hin].
  - rewrite !drop_ge by lia. now destruct (_ - _), (Z.to_nat len).
  - replace (Z.to_nat (Z.min start (Z.of_nat (length l)))) with (Z.to_nat start) by lia.
    destruct (decide (start + len <= Z.of_nat (length l))%Z) as [Hfit|Hover].
    + f_equal. lia.
    + rewrite !take_ge; [reflexivity | rewrite length_drop; lia | rewrite length_drop; lia].
Qed.

Section Pages.

Variable sort : list (gmap string JsVal) -> list (gmap string JsVal).

Lemma pages_take_drop (filters : Filters) (limit : Z) (t : list (gmap string JsVal))
    (first : Z) (count : nat) :
  (0 < limit)%Z -> (1 <= first)%Z ->
  pages sort filters limit t first count
  = take (count * Z.to_nat limit)
      (drop (Z.to_nat ((first - 1) * limit)) (sort (filteredJobs filters t))).
Proof.
  intros Hl. revert first. induction count as [|n IH]; intros first Hf; [reflexivity|].
  cbn [pages]. rewrite IH by lia. unfold getQueueJobs. cbn [jobs].
  rewrite slice_from by nia.
  replace (Z.to_nat ((first + 1 - 1) * limit))
    with (Z.to_nat ((first - 1) * limit) + Z.to_nat limit) by nia.
  rewrite <- drop_drop.
  rewrite take_take_drop. reflexivity.
Qed.

(** X22: the pages of [getQueueJobs] cut the sorted rows that pass the
    filters into consecutive pieces.  For a positive limit every page has
    [limit] rows at most, and the pages 1 to [totalPages], one after the
    other, are exactly the sorted filtered rows: no row is left out and
    none comes twice. *)
Theorem getQueueJobs_pages (filters : Filters) (page limit : Z)
    (t : list (gmap string JsVal)) :
  (0 < limit)%Z -> (1 <= page)%Z ->
  (forall l, length (sort l) = length l) ->
  let result := getQueueJobs sort filters page limit t in
  (Z.of_nat (length (jobs result)) <= limit)%Z
  /\ total (pagination result) = Z.of_nat (length (filteredJobs filters t))
  /\ exists n : Z,
       totalPages (pagination result) = Some n
       /\ pages sort filters limit t 1 (Z.to_nat n) = sort (filteredJobs filters t)
       /\ ((n < page)%Z -> jobs result = []).
Proof.
  intros Hl Hp Hsort result. unfold result, getQueueJobs. cbn [jobs pagination total totalPages].
  rewrite slice_from by nia.
  set (rows := filteredJobs filters t).
  split; [|split; [reflexivity|]].
  - rewrite length_take. lia.
  - unfold ceil_div. destruct (Z.eqb_spec limit 0) as [|_]; [lia|].
    set (len := Z.of_nat (length rows)).
    set (n := (- (- len / limit))%Z).
    assert (Hn : (len <= n * limit < len + limit)%Z).
    { unfold n. pose proof (Z.mul_div_le (- len) limit Hl).
      pose proof (Z.mul_succ_div_gt (- len) limit Hl). lia. }
    assert (Hn0 : (0 <= n)%Z) by (unfold len in *; nia).
    exists n. split; [reflexivity|]. split.
    + rewrite pages_take_drop by lia. cbn [Z.sub Z.mul Z.to_nat drop].
      change (Z.to_nat ((1 - 1) * limit)) with (Z.to_nat (0 * limit)).
      rewrite Z.mul_0_l. cbn [Z.to_nat drop].
      apply take_ge. fold rows. rewrite Hsort. unfold len in *. nia.
    + intros Hlt. fold rows. rewrite drop_ge; [now destruct (Z.to_nat limit)|].
      rewrite Hsort. unfold len in *. nia.
Qed.

End Pages.

End ApiDbFacts.

(** X19 on two rows that share their [jobId]: the second one is not
    updated. *)
Lemma updateQueueJob_one_row_witness :
  let row := ApiDb.queue_row "1000" ApiQueue.text_job in
  let updates : gmap string JsVal := {["status" := JStr "processing"]} in
  ApiDb.updateQueueJob 2000 "1000" updates [row; row]
  = (true, [<["updated_at" := JNum 2000]> (updates ∪ row); row]).
Proof.
  intros row updates.
  exact (proj1 (proj2 (ApiDbFacts.updateQueueJob_one_row 2000 "1000" updates [row; row]))
           [] row [row] eq_refl (Forall_nil_2 _) eq_refl).
Defined.

(** X20 on the row [addJob] saves and the update [processJob] makes. *)
Lemma update_after_save_witness :
  let jobData := ApiDb.queue_row "1000" ApiQueue.text_job in
  let updates : gmap string JsVal := {["status" := JStr "processing"]} in
  exists saved row,
    snd (ApiDb.saveQueueJob 1000 1000 jobData []) = ([] ++ [saved])%list
    /\ ApiDb.updateQueueJob 1001 "1000" updates ([] ++ [saved]) = (true, ([] ++ [row])%list)
    /\ BullQueue.prop row "status" = JStr "processing"
    /\ BullQueue.prop row "recipient" = JStr "+15551234567".
Proof.
  intros jobData updates.
  destruct (ApiDbFacts.update_after_save 1000 1000 1001 "1000" jobData updates []
              eq_refl (Forall_nil_2 _))
    as (saved & row & Hs & Hu & _ & Hnew & Hold & Hsaved).
  exists saved, row. split; [exact Hs|]. split; [exact Hu|]. split.
  - apply Hnew; [discriminate | reflexivity].
  - rewrite Hold; [|discriminate | reflexivity].
    apply Hsaved; [discriminate | discriminate | reflexivity].
Defined.

(** X21 from the empty table. *)
Lemma ids_stay_in_order_witness :
  ApiDb.ids_in_order []
  /\ fst (ApiDb.saveQueueJob 1000 1000 (ApiDb.queue_row "1000" ApiQueue.text_job) [])
     = JNum 1.
Proof.
  assert (H : ApiDb.ids_in_order []) by (intros k row Hk; inversion Hk).
  split; [exact H|].
  exact (proj1 (proj1 (ApiDbFacts.ids_stay_in_order [] H) 1000%Z 1000%Z
                  (ApiDb.queue_row "1000" ApiQueue.text_job) eq_refl)).
Defined.

(** X22 with the newest row last in the table, so that sorting reverses
    it: five rows in pages of two. *)
Lemma getQueueJobs_pages_witness :
  let row := fun k : string => ApiDb.queue_row k ApiQueue.text_job in
  let t := [row "1"; row "2"; row "3"; row "4"; row "5"] in
  ApiDb.totalPages (ApiDb.pagination (ApiDb.getQueueJobs (@rev _) ApiDb.no_filters 3 2 t))
  = Some 3%Z
  /\ ApiDb.jobs (ApiDb.getQueueJobs (@rev _) ApiDb.no_filters 3 2 t) = [row "1"]
  /\ (Z.of_nat (length (ApiDb.jobs (ApiDb.getQueueJobs (@rev _) ApiDb.no_filters 3 2 t)))
      <= 2)%Z.
Proof.
  intros row t.
  split; [reflexivity|]. split; [reflexivity|].
  assert (Hp : (1 <= 3)%Z) by discriminate.
  exact (proj1 (ApiDbFacts.getQueueJobs_pages (@rev _) ApiDb.no_filters 3 2 t
                  eq_refl Hp (@length_rev _))).
Defined.

(** ** What the arrays of the in-memory queue hold *)

Module QueueArrayFacts.
Import ApiQueue ApiQueueReads.

(** *** The completed jobs *)

Lemma completed_processJob_begin now jobId q :
  completed (fst (processJob_begin now jobId q)) = completed q.
Proof.
  unfold processJob_begin.
  destruct (findIndex _ (pending q)) as [i|]; [|reflexivity].
  destruct (pending q !! i); reflexivity.
Qed.

Lemma completed_processJob_catch now jobId msg q :
  completed (fst (processJob_catch now jobId msg q)) = completed q.
Proof.
  unfold processJob_catch.
  destruct (findIndex _ (processing q)) as [i|]; [|reflexivity].
  destruct (processing q !! i); reflexivity.
Qed.

Lemma completed_cancelJob_begin now jobId q :
  completed (seg_queue (cancelJob_begin now jobId q)) = completed q.
Proof.
  unfold cancelJob_begin.
  destruct (findIndex _ (pending q)) as [i|]; [|reflexivity].
  destruct (pending q !! i); reflexivity.
Qed.

Lemma completed_retryFailedJobs_next now l total q :
  completed (seg_queue (retryFailedJobs_next now l total q)) = completed q.
Proof. destruct l; reflexivity. Qed.

Lemma status_at_mutate_eq f r q j :
  heap q !! r = Some j -> status_at (mutate f r q) r = Some (status (f j)).
Proof.
  intros H. unfold status_at, mutate. cbn [heap set_heap].
  now rewrite list_lookup_alter_eq, H.
Qed.

Lemma completed_processJob_complete now jobId r q x :
  has_id (heap q) jobId r = true ->
  x ∈ completed (fst (processJob_complete now jobId r q)) ->
  x ∈ completed q \/ status_at (fst (processJob_complete now jobId r q)) x = Some Completed.
Proof.
  intros Hid. destruct (LifeCycleFacts.has_id_Some _ _ _ Hid) as (j & Hj & _).
  unfold processJob_complete. cbn [fst completed set_completed db_call set_processing].
  rewrite elem_of_app, list_elem_of_singleton. intros [H| ->]; [now left | right].
  unfold status_at. cbn [heap db_call set_completed set_processing mutate set_heap].
  rewrite !list_lookup_alter_eq, Hj. reflexivity.
Qed.

(** Whatever a step adds to [queue.completed] has the status
    [completed]. *)
Lemma completed_step (s : State) (a : Z * Action) (x : nat) :
  wf s ->
  x ∈ completed (queue (step s a)) ->
  x ∈ completed (queue s) \/ status_of (step s a) x = Some Completed.
Proof.
  destruct s as [q fs o]. destruct a as [now act]. intros W.
  destruct act as [jobData | jobId | | | i oc]; cbn [step commit queue frames].
  - intros H. now left.
  - rewrite completed_cancelJob_begin. now left.
  - cbn. intros H. inversion H.
  - unfold retryFailedJobs_begin. rewrite completed_retryFailedJobs_next. now left.
  - destruct (fs !! i) as [f|] eqn:Hi; cbn [queue]; [|now left].
    destruct f as [r | jobId r | jobId r | jobId r | jobId | jobId | r rest total];
      cbn [resume].
    + destruct oc as [|msg]; [|now left].
      pose proof (completed_processJob_begin now (id_of (heap q) r) q) as E.
      destruct (processJob_begin now (id_of (heap q) r) q) as [q' new].
      cbn [fst seg_queue commit queue] in *. rewrite E. now left.
    + destruct oc as [|msg]; [now left|].
      pose proof (completed_processJob_catch now jobId msg q) as E.
      destruct (processJob_catch now jobId msg q) as [q' new].
      cbn [fst seg_queue commit queue] in *. rewrite E. now left.
    + assert (Hid : has_id (heap q) jobId r = true).
      { pose proof (wf_frames _ _ W) as F. cbn [queue frames] in F.
        rewrite Forall_lookup in F. exact (F i _ Hi). }
      pose proof (completed_processJob_complete now jobId r q x Hid) as E.
      unfold status_of.
      destruct (processJob_complete now jobId r q) as [q' new].
      cbn [fst seg_queue commit queue] in *. exact E.
    + destruct oc as [|msg]; [now left|].
      pose proof (completed_processJob_catch now jobId msg q) as E.
      destruct (processJob_catch now jobId msg q) as [q' new].
      cbn [fst seg_queue commit queue] in *. rewrite E. now left.
    + now left.
    + destruct oc; now left.
    + destruct oc as [|msg]; [|now left].
      pose proof (completed_processJob_begin now (id_of (heap q) r) q) as E.
      destruct (processJob_begin now (id_of (heap q) r) q) as [q' new].
      cbn [fst seg_queue commit queue] in *. rewrite completed_retryFailedJobs_next, E. now left.
Qed.

Lemma completed_is_kept (s s' : State) (x : nat) :
  edges s s' -> status_of s x = Some Completed -> status_of s' x = Some Completed.
Proof.
  intros E H. specialize (E x). rewrite H in E.
  destruct (status_of s' x) as [[]|]; cbn in E; try discriminate. reflexivity.
Qed.

Lemma run_completed (trace : list (Z * Action)) (s : State) :
  wf s -> completed_hold s -> fresh_run s trace ->
  wf (run s trace) /\ completed_hold (run s trace).
Proof.
  revert s. induction trace as [|a trace IH]; intros s W C F; [now split|].
  destruct F as [Fa Ft]. destruct (LifeCycleFacts.step_wf s a W Fa) as [W' E].
  apply (IH (step s a) W'); [|exact Ft].
  intros x Hx. destruct (completed_step s a x W Hx) as [H|H]; [|exact H].
  exact (completed_is_kept s (step s a) x E (C x H)).
Qed.

(** X24: in every state reached from the empty queue, with distinct job
    ids, each array holds jobs of the status it stands for: pending jobs in
    [pending], processing jobs in [processing], completed jobs in
    [completed], and failed or cancelled jobs in [failed]; and no job sits
    twice in [pending], [processing] and [failed] taken together. *)
Theorem arrays_hold_their_status (trace : list (Z * Action)) (x : nat) :
  fresh_run init trace ->
  let s := run init trace in
  (x ∈ pending (queue s) -> status_of s x = Some Pending)
  /\ (x ∈ processing (queue s) -> status_of s x = Some Processing)
  /\ (x ∈ completed (queue s) -> status_of s x = Some Completed)
  /\ (x ∈ failed (queue s) ->
      status_of s x = Some Failed \/ status_of s x = Some Cancelled)
  /\ count_in (pending (queue s)) x + count_in (processing (queue s)) x
     + count_in (failed (queue s)) x <= 1.
Proof.
  intros F s.
  assert (C0 : completed_hold init) by (intros y Hy; inversion Hy).
  destruct (run_completed trace init LifeCycleFacts.wf_init C0 F) as [W C].
  fold s in W, C. pose proof (wf_refs _ _ W x) as R.
  split; [|split; [|split; [|split]]].
  - intros H. apply LifeCycleFacts.count_in_pos in H. exact (wf_pending _ _ _ R H).
  - intros H. apply LifeCycleFacts.count_in_pos in H. exact (wf_processing _ _ _ R H).
  - apply C.
  - intros H. apply LifeCycleFacts.count_in_pos in H.
    apply (wf_retry _ _ _ R). lia.
  - pose proof (wf_own _ _ _ R). lia.
Qed.

(** X25: a completed job stays completed: from a state reached with
    distinct job ids, nothing that happens later changes the status of a
    job that is [completed], whether it is retried, cancelled or cleared
    from the list. *)
Theorem completed_is_final (before after : list (Z * Action)) (x : nat) :
  fresh_run init (before ++ after) ->
  status_of (run init before) x = Some Completed ->
  status_of (run init (before ++ after)) x = Some Completed.
Proof.
  rewrite ApiQueueFacts.run_app.
  assert (Hsplit : forall t1 t2 s, fresh_run s (t1 ++ t2) ->
                     fresh_run s t1 /\ fresh_run (run s t1) t2).
  { induction t1 as [|a t1 IH]; intros t2 s; cbn; [now split|].
    intros [Fa Ft]. destruct (IH t2 _ Ft). now repeat split. }
  intros F. destruct (Hsplit _ _ _ F) as [F1 F2].
  destruct (LifeCycleFacts.run_edges before init LifeCycleFacts.wf_init F1) as [_ W].
  generalize dependent (run init before). clear F F1 Hsplit before.
  induction after as [|a after IH]; intros s F W H; [exact H|].
  cbn. destruct F as [Fa Ft].
  destruct (LifeCycleFacts.step_wf s a W Fa) as [W' E].
  apply (IH _ Ft W'). exact (completed_is_kept s (step s a) x E H).
Qed.

(** *** Failures of the database *)

(** X26: when the database update of [retryFailedJobs] is rejected, the
    call throws and the failed jobs it had not come to yet are lost to the
    queue: [queue.failed] was emptied at the start and is not restored, so
    these jobs are in no array any more although their status is unchanged.
    The job whose update failed stays in [pending], and no [processJob] is
    started for it. *)
Theorem retryFailedJobs_rejected_drops_jobs (s : State) (t1 t2 : Z) (msg : string)
    (job : nat) (rest : list nat) :
  failed (queue s) = job :: rest ->
  let s' := run s [(t1, call_retryFailedJobs);
                   (t2, settle (length (frames s)) (rejected msg))] in
  out s' = (out s ++ [retryFailedJobs_throws msg])%list
  /\ frames s' = frames s
  /\ failed (queue s') = []
  /\ pending (queue s') = (pending (queue s) ++ [job])%list
  /\ processing (queue s') = processing (queue s)
  /\ completed (queue s') = completed (queue s)
  /\ forall x, x <> job -> status_of s' x = status_of s x.
Proof.
  intros Hf s'. unfold s', run. cbn [fold_left].
  destruct s as [q fs o]. cbn [queue frames out] in *.
  cbn [step commit queue frames out seg_queue seg_frames seg_events].
  unfold retryFailedJobs_begin. rewrite Hf.
  cbn [retryFailedJobs_next commit queue frames out seg_queue seg_frames seg_events].
  rewrite LifeCycleFacts.lookup_snoc. cbn [resume commit queue frames out seg_queue
                                           seg_frames seg_events].
  rewrite LifeCycleFacts.delete_snoc, !app_nil_r.
  repeat split.
  intros x Hx. unfold status_of. cbn.
  now rewrite !list_lookup_alter_ne by congruence.
Qed.

(** X27: when the save of [addJob] is rejected, the caller gets the
    exception, but the job is in [queue.pending] with the status [pending]
    all the same, and no [processJob] has been started for it. *)
Theorem addJob_rejected_leaves_job (s : State) (t1 t2 : Z) (jobData : JobData)
    (msg : string) :
  let s' := run s [(t1, call_addJob jobData);
                   (t2, settle (length (frames s)) (rejected msg))] in
  let job := length (heap (queue s)) in
  out s' = (out s ++ [addJob_throws msg])%list
  /\ frames s' = frames s
  /\ pending (queue s') = (pending (queue s) ++ [job])%list
  /\ status_of s' job = Some Pending
  /\ db (queue s') = (db (queue s) ++ [saveQueueJob (toString t1) jobData Pending])%list.
Proof.
  intros s' job. unfold s', run. cbn [fold_left].
  destruct s as [q fs o]. cbn [queue frames out] in *.
  cbn [step addJob_begin commit queue frames out seg_queue seg_frames seg_events].
  cbn [step addJob_begin commit queue frames out seg_queue seg_frames seg_events].
  rewrite LifeCycleFacts.lookup_snoc. cbn [resume commit queue frames out seg_queue
                                           seg_frames seg_events].
  rewrite LifeCycleFacts.delete_snoc, !app_nil_r.
  repeat split. unfold status_of, job. cbn.
  now rewrite LifeCycleFacts.lookup_snoc.
Qed.

(** *** [getJob] and [getQueueStatus] *)

Section Reads.

Variable sort : list (gmap string JsVal) -> list (gmap string JsVal).

(** X28: with distinct job ids, [getJob] finds every job that is in one of
    the four arrays: asked for the id of such a job it returns that very
    job object, whatever the database holds. *)
Theorem getJob_finds_queued_job (trace : list (Z * Action)) (x : nat) (j : Job)
    (t : list (gmap string JsVal)) :
  fresh_run init trace ->
  let q := queue (run init trace) in
  x ∈ allJobs q -> heap q !! x = Some j ->
  getJob sort (id j) q t = in_memory x.
Proof.
  intros F q Hx Hj.
  destruct (LifeCycleFacts.run_edges trace init LifeCycleFacts.wf_init F) as [_ W].
  pose proof (wf_ids _ _ W) as U. fold q in U.
  assert (Hself : has_id (heap q) (id j) x = true).
  { unfold has_id. rewrite Hj. apply String.eqb_refl. }
  unfold getJob.
  destruct (List.find (has_id (heap q) (id j)) (allJobs q)) as [y|] eqn:Hfind.
  - apply find_some in Hfind as [_ Hy].
    now rewrite (LifeCycleFacts.unique_has_id _ _ _ _ U Hy Hself).
  - apply list_elem_of_In in Hx.
    pose proof (find_none _ _ Hfind x Hx) as Hno. congruence.
Qed.

Lemma Forall_slice {A} (P : A -> Prop) (l : list A) (a b : Z) :
  Forall P l -> Forall P (ApiDb.slice l a b).
Proof. intros H. unfold ApiDb.slice. now apply Forall_take, Forall_drop. Qed.

(** X29: for a job that is in none of the arrays [getJob] returns
    [undefined] although the row of the job is in the database: the rows
    are looked up by [job_id], a property that the rows of the in-memory
    store, saved by [addJob] with a [jobId], do not have. *)
Theorem getJob_never_reads_the_database (jobId : string) (q : Queue)
    (t : list (gmap string JsVal)) :
  (forall l, sort l ≡ₚ l) ->
  Forall (fun row => row !! "job_id" = None) t ->
  getJob sort jobId q t
  = match List.find (has_id (heap q) jobId) (allJobs q) with
    | Some job => in_memory job
    | None => not_found
    end.
Proof.
  intros Hsort Ht. unfold getJob.
  destruct (List.find (has_id (heap q) jobId) (allJobs q)); [reflexivity|].
  unfold ApiDb.getQueueJobs_default, ApiDb.getQueueJobs. cbn [ApiDb.jobs].
  destruct (List.find _ _) as [row|] eqn:Hfind; [|reflexivity].
  apply find_some in Hfind as [Hin Hp]. exfalso.
  assert (Hall : Forall (fun row => row !! "job_id" = None)
                   (ApiDb.slice (sort (ApiDb.filteredJobs ApiDb.no_filters t))
                      ((1 - 1) * 50) ((1 - 1) * 50 + 50))).
  { apply Forall_slice. now rewrite Hsort. }
  rewrite Forall_forall in Hall. apply list_elem_of_In in Hin.
  specialize (Hall row Hin). unfold ApiDb.prop_is, BullQueue.prop in Hp.
  now rewrite Hall in Hp.
Qed.

Lemma filter_exclusive {A} (p1 p2 p3 p4 : A -> bool) (l : list A) :
  (forall x, Nat.b2n (p1 x) + Nat.b2n (p2 x) + Nat.b2n (p3 x) + Nat.b2n (p4 x) <= 1) ->
  length (List.filter p1 l) + length (List.filter p2 l)
  + length (List.filter p3 l) + length (List.filter p4 l) <= length l.
Proof.
  intros H. induction l as [|x l IH]; [reflexivity|].
  specialize (H x). cbn [List.filter].
  destruct (p1 x), (p2 x), (p3 x), (p4 x); cbn in *; lia.
Qed.

(** X30: the database part of [getQueueStatus] counts the first page
    only: whatever the number of rows, its four counts add up to 50 at
    most, and to no more than [total], which is the number of all rows; the
    in-memory part gives the lengths of the four arrays. *)
Theorem getQueueStatus_counts (q : Queue) (t : list (gmap string JsVal)) :
  (forall l, sort l ≡ₚ l) ->
  let st := getQueueStatus sort q t in
  let counted := count_pending (database st) + count_processing (database st)
                 + count_completed (database st) + count_failed (database st) in
  database_total st = Z.of_nat (length t)
  /\ counted <= 50
  /\ counted <= length t
  /\ inMemory st = mkCounts (length (pending q)) (length (processing q))
                            (length (completed q)) (length (failed q)).
Proof.
  intros Hsort st counted. unfold counted, st, getQueueStatus, count_status.
  cbn [database inMemory database_total count_pending count_processing
       count_completed count_failed].
  set (rows := ApiDb.jobs (ApiDb.getQueueJobs_default sort t)).
  assert (Hlen : length rows <= 50 /\ length rows <= length t).
  { unfold rows, ApiDb.getQueueJobs_default, ApiDb.getQueueJobs. cbn [ApiDb.jobs].
    change (ApiDb.filteredJobs ApiDb.no_filters t) with t.
    change ((1 - 1) * 50)%Z with 0%Z.
    rewrite ApiDbFacts.slice_from by lia.
    rewrite length_take, length_drop, (Permutation_length (Hsort t)). lia. }
  split; [reflexivity|].
  assert (Hsum : length (List.filter (ApiDb.prop_is "status" "pending") rows)
                 + length (List.filter (ApiDb.prop_is "status" "processing") rows)
                 + length (List.filter (ApiDb.prop_is "status" "completed") rows)
                 + length (List.filter (ApiDb.prop_is "status" "failed") rows)
                 <= length rows).
  { apply filter_exclusive. intros row. unfold ApiDb.prop_is.
    destruct (BullQueue.prop row "status") as [| | | |s|]; cbn; try lia.
    destruct (String.eqb_spec s "pending") as [->|]; [cbn; lia|].
    destruct (String.eqb_spec s "processing") as [->|]; [cbn; lia|].
    destruct (String.eqb_spec s "completed") as [->|]; [cbn; lia|].
    destruct (String.eqb s "failed"); cbn; lia. }
  repeat split; lia.
Qed.

End Reads.

End QueueArrayFacts.

(** X23: the life cycle along the run in which a job is cancelled while
    [addJob] awaits the database and retried later. *)
Lemma reachable_edges_witness :
  ApiQueue.fresh_run ApiQueue.init ApiQueue.cancel_then_retry
  /\ ApiQueue.edges_run ApiQueue.init ApiQueue.cancel_then_retry.
Proof.
  assert (F : ApiQueue.fresh_run ApiQueue.init ApiQueue.cancel_then_retry).
  { vm_compute. repeat split; repeat constructor. }
  split; [exact F|].
  exact (LifeCycleFacts.reachable_edges ApiQueue.cancel_then_retry F).
Defined.

(** X24 after two jobs have failed. *)
Lemma arrays_hold_their_status_witness :
  let trace := (ApiQueue.enqueue_and_fail ApiQueue.text_job 1000
                ++ ApiQueue.enqueue_and_fail ApiQueue.text_job 2000)%list in
  ApiQueue.fresh_run ApiQueue.init trace
  /\ ApiQueue.failed (ApiQueue.queue (ApiQueue.run ApiQueue.init trace)) = [0; 1]
  /\ (ApiQueue.status_of (ApiQueue.run ApiQueue.init trace) 1 = Some ApiQueue.Failed
      \/ ApiQueue.status_of (ApiQueue.run ApiQueue.init trace) 1 = Some ApiQueue.Cancelled).
Proof.
  intros trace.
  assert (F : ApiQueue.fresh_run ApiQueue.init trace).
  { vm_compute. repeat split; repeat constructor. discriminate. }
  assert (E : ApiQueue.failed (ApiQueue.queue (ApiQueue.run ApiQueue.init trace)) = [0; 1])
    by (vm_compute; reflexivity).
  split; [exact F|]. split; [exact E|].
  apply (QueueArrayFacts.arrays_hold_their_status trace 1 F).
  rewrite E. apply elem_of_cons. right. apply elem_of_cons. now left.
Defined.

(** X25: the job of [cancel_then_retry] is completed at the end of that
    run; retrying and cancelling it afterwards does nothing to it. *)
Lemma completed_is_final_witness :
  let after := [(5000, ApiQueue.call_retryFailedJobs);
                (5001, ApiQueue.call_cancelJob "1000")]%Z in
  ApiQueue.status_of (ApiQueue.run ApiQueue.init ApiQueue.cancel_then_retry) 0
  = Some ApiQueue.Completed
  /\ ApiQueue.status_of (ApiQueue.run ApiQueue.init (ApiQueue.cancel_then_retry ++ after)) 0
     = Some ApiQueue.Completed.
Proof.
  intros after.
  assert (F : ApiQueue.fresh_run ApiQueue.init (ApiQueue.cancel_then_retry ++ after)).
  { vm_compute. repeat split; repeat constructor. }
  assert (H : ApiQueue.status_of (ApiQueue.run ApiQueue.init ApiQueue.cancel_then_retry) 0
              = Some ApiQueue.Completed) by (vm_compute; reflexivity).
  split; [exact H|].
  exact (QueueArrayFacts.completed_is_final ApiQueue.cancel_then_retry after 0 F H).
Defined.

(** X26 with two failed jobs: the second one is in no array after the
    rejected retry. *)
Lemma retryFailedJobs_rejected_drops_jobs_witness :
  let s := ApiQueue.run ApiQueue.init
             (ApiQueue.enqueue_and_fail ApiQueue.text_job 1000
              ++ ApiQueue.enqueue_and_fail ApiQueue.text_job 2000)%list in
  let s' := ApiQueue.run s [(3000, ApiQueue.call_retryFailedJobs);
                            (3001, ApiQueue.settle (length (ApiQueue.frames s))
                                     (rejected "database unavailable"))]%Z in
  ApiQueue.failed (ApiQueue.queue s) = [0; 1]
  /\ ApiQueue.failed (ApiQueue.queue s') = []
  /\ ApiQueue.pending (ApiQueue.queue s') = (ApiQueue.pending (ApiQueue.queue s) ++ [0])%list.
Proof.
  intros s s'.
  assert (E : ApiQueue.failed (ApiQueue.queue s) = [0; 1]) by (vm_compute; reflexivity).
  split; [exact E|].
  destruct (QueueArrayFacts.retryFailedJobs_rejected_drops_jobs s 3000 3001
              "database unavailable" 0 [1] E) as (_ & _ & Hf & Hp & _).
  split; [exact Hf | exact Hp].
Defined.

(** X28 on the run of [cancel_then_retry]: the job is found under its
    id. *)
Lemma getJob_finds_queued_job_witness :
  let q := ApiQueue.queue (ApiQueue.run ApiQueue.init ApiQueue.cancel_then_retry) in
  exists j,
    ApiQueue.heap q !! 0 = Some j
    /\ ApiQueue.id j = "1000"
    /\ ApiQueueReads.getJob (@rev _) (ApiQueue.id j) q [] = ApiQueueReads.in_memory 0.
Proof.
  intros q.
  assert (F : ApiQueue.fresh_run ApiQueue.init ApiQueue.cancel_then_retry).
  { vm_compute. repeat split; repeat constructor. }
  assert (Hx : 0 ∈ ApiQueueReads.allJobs q).
  { vm_compute. apply elem_of_cons. now left. }
  destruct (ApiQueue.heap q !! 0) as [j|] eqn:Hj; [|vm_compute in Hj; discriminate].
  exists j. split; [reflexivity|]. split.
  - vm_compute in Hj. injection Hj as <-. reflexivity.
  - exact (QueueArrayFacts.getJob_finds_queued_job (@rev _) ApiQueue.cancel_then_retry
             0 j [] F Hx Hj).
Defined.

(** X29: the row of job [1000] is in the table, the job is in no array,
    and [getJob] returns [undefined]. *)
Lemma getJob_never_reads_the_database_witness :
  let saved := snd (ApiDb.saveQueueJob 1000 1000
                      (ApiDb.queue_row "1000" ApiQueue.text_job) []) in
  Forall (fun row => ApiDb.prop_is "jobId" "1000" row = true) saved
  /\ ApiQueueReads.getJob (@rev _) "1000" ApiQueue.empty_queue saved
     = ApiQueueReads.not_found.
Proof.
  intros saved. split.
  - repeat constructor.
  - apply (QueueArrayFacts.getJob_never_reads_the_database (@rev _) "1000"
             ApiQueue.empty_queue saved).
    + intros l. apply Permutation_sym, Permutation_rev.
    + repeat constructor.
Defined.

(** X30 on a table of three rows. *)
Lemma getQueueStatus_counts_witness :
  let row := ApiDb.queue_row "1000" ApiQueue.text_job in
  let st := ApiQueueReads.getQueueStatus (@rev _) ApiQueue.empty_queue [row; row; row] in
  ApiQueueReads.database_total st = 3%Z
  /\ ApiQueueReads.count_pending (ApiQueueReads.database st) = 3.
Proof.
  intros row st.
  split.
  - exact (proj1 (QueueArrayFacts.getQueueStatus_counts (@rev _) ApiQueue.empty_queue
                    [row; row; row]
                    (fun l => Permutation_sym (Permutation_rev l)))).
  - reflexivity.
Defined.
